(** * Demand paging in kernel/vm.c: a shallow embedding and its properties

    The development follows kernel/vm.c function by function.  The C state
    that the paging code reads and writes (the current process returned by
    [myproc()], the free list of the frame allocator and the page-table
    pages) is one record [state]; every C function becomes a computation in
    a state-and-error monad [M] whose failures are the kernel's [panic] and
    the undefined behaviours of C (a null pointer dereferenced, an array
    indexed out of its bounds, a signed overflow). *)

From Stdlib Require Import ZArith Lia String List.
From stdpp Require Import base option list list_numbers gmap.

Local Open Scope Z_scope.

(** ** Machine integers *)

(** [uint64], [uint] and [int] values are integers of [Z]; a conversion to
    the type wraps as the RISC-V compiler does. *)
Definition u64 (x : Z) : Z := x mod 2 ^ 64.
Definition u32 (x : Z) : Z := x mod 2 ^ 32.
Definition s32 (x : Z) : Z := (x + 2 ^ 31) mod 2 ^ 32 - 2 ^ 31.
Definition INT_MAX : Z := 2 ^ 31 - 1.
Definition INT_MIN : Z := - 2 ^ 31.

(** ** Constants of riscv.h and param.h *)

Definition PGSIZE : Z := 4096.
Definition PGSHIFT : Z := 12.
Definition MAXVA : Z := Z.shiftl 1 (9 + 9 + 9 + 12 - 1).

Definition PTE_V : Z := Z.shiftl 1 0.
Definition PTE_R : Z := Z.shiftl 1 1.
Definition PTE_W : Z := Z.shiftl 1 2.
Definition PTE_X : Z := Z.shiftl 1 3.
Definition PTE_U : Z := Z.shiftl 1 4.
Definition PTE_A : Z := Z.shiftl 1 6.

(** Modelled from the spec: riscv.h is not part of the sources; the
    "paged-out" flag is the software-reserved bit 9 of a PTE. *)
Definition PTE_PG : Z := Z.shiftl 1 9.

(** Modelled from the spec: param.h is not part of the sources; the
    tunables are [MAX_PSYC_PAGES = 16] and [MAX_TOTAL_PAGES = 32]. *)
Definition MAX_PSYC_PAGES : Z := 16.
Definition MAX_TOTAL_PAGES : Z := 32.

Definition PGROUNDUP (sz : Z) : Z := Z.land (u64 (sz + PGSIZE - 1)) (u64 (Z.lnot (PGSIZE - 1))).
Definition PGROUNDDOWN (a : Z) : Z := Z.land a (u64 (Z.lnot (PGSIZE - 1))).
Definition PX (level va : Z) : Z := Z.land (Z.shiftr va (PGSHIFT + 9 * level)) 511.
Definition PA2PTE (pa : Z) : Z := u64 (Z.shiftl (Z.shiftr pa 12) 10).
Definition PTE2PA (pte : Z) : Z := u64 (Z.shiftl (Z.shiftr pte 10) 12).
Definition PTE_FLAGS (pte : Z) : Z := Z.land pte 1023.

(** [x & ~m] on an unsigned 64-bit word *)
Definition clear_bits (x m : Z) : Z := Z.land x (u64 (Z.lnot m)).

(** The build-time selector [SELECTION]. *)
Inductive selection : Type := NONE | NFUA | LAPA | SCFIFO.

(** ** The state *)

(** Modelled from the spec: proc.h is not part of the sources; a
    [PageMeta] record has a residency flag, a swap-file offset ([int], -1
    when the page is not on disk) and a 32-bit aging counter. *)
Record pageData : Type := mkPageData {
  inUse : bool;
  offset : Z;
  agingCounter : Z
}.

(** A page-table pointer [pte_t *] names a slot of a level-0 page-table
    page: the root it was reached from and the three 9-bit indices. *)
Record pteptr : Type := mkPtr {
  pp_root : Z;
  pp_i2 : Z;
  pp_i1 : Z;
  pp_i0 : Z
}.

#[export] Instance pteptr_eq_dec : EqDecision pteptr.
Proof. solve_decision. Defined.

(** The memory of page-table pages is kept as trees: a root (level 2) maps
    the indices whose PTE is valid to level-1 pages, a level-1 page maps
    them to level-0 pages, and a level-0 page is its 512 PTE words.  The
    roots are stored by address, so two [pagetable_t] arguments alias
    exactly when they are equal. *)
Record state : Type := mkState {
  (* struct proc of myproc() *)
  pid : Z;
  sz : Z;
  pagetable : Z;
  data : list pageData;
  pagesInMemory : Z;
  pages : list Z;
  head : Z;
  tail : Z;
  numOfPages : Z;
  (* Modelled from the spec: swap_write succeeds on a process that has a
     swap file and returns a negative number on one that has none. *)
  swapFile : bool;
  (* Modelled from the spec: alloc_frame / free_frame work on a list of
     free frames; the allocator returns 0 when the list is empty. *)
  kmem : list Z;
  ptmem : gmap Z (gmap Z (gmap Z (list Z)))
}.

Definition set_data (v : list pageData) (s : state) : state :=
  mkState (pid s) (sz s) (pagetable s) v (pagesInMemory s) (pages s) (head s) (tail s)
          (numOfPages s) (swapFile s) (kmem s) (ptmem s).
Definition set_pagesInMemory (v : Z) (s : state) : state :=
  mkState (pid s) (sz s) (pagetable s) (data s) v (pages s) (head s) (tail s)
          (numOfPages s) (swapFile s) (kmem s) (ptmem s).
Definition set_pages (v : list Z) (s : state) : state :=
  mkState (pid s) (sz s) (pagetable s) (data s) (pagesInMemory s) v (head s) (tail s)
          (numOfPages s) (swapFile s) (kmem s) (ptmem s).
Definition set_head (v : Z) (s : state) : state :=
  mkState (pid s) (sz s) (pagetable s) (data s) (pagesInMemory s) (pages s) v (tail s)
          (numOfPages s) (swapFile s) (kmem s) (ptmem s).
Definition set_tail (v : Z) (s : state) : state :=
  mkState (pid s) (sz s) (pagetable s) (data s) (pagesInMemory s) (pages s) (head s) v
          (numOfPages s) (swapFile s) (kmem s) (ptmem s).
Definition set_numOfPages (v : Z) (s : state) : state :=
  mkState (pid s) (sz s) (pagetable s) (data s) (pagesInMemory s) (pages s) (head s) (tail s)
          v (swapFile s) (kmem s) (ptmem s).
Definition set_kmem (v : list Z) (s : state) : state :=
  mkState (pid s) (sz s) (pagetable s) (data s) (pagesInMemory s) (pages s) (head s) (tail s)
          (numOfPages s) (swapFile s) v (ptmem s).
Definition set_ptmem (v : gmap Z (gmap Z (gmap Z (list Z)))) (s : state) : state :=
  mkState (pid s) (sz s) (pagetable s) (data s) (pagesInMemory s) (pages s) (head s) (tail s)
          (numOfPages s) (swapFile s) (kmem s) v.

(** ** The monad of kernel code *)

Inductive result (A : Type) : Type :=
| Ok (a : A) (s : state)     (* the call returns [a] in state [s] *)
| Panic (msg : string)       (* [panic(msg)]: the kernel stops *)
| Undef                      (* undefined behaviour of C *)
| OutOfFuel.                 (* a loop of the model ran out of fuel *)
Arguments Ok {A} a s.
Arguments Panic {A} msg.
Arguments Undef {A}.
Arguments OutOfFuel {A}.

Definition M (A : Type) : Type := state → result A.

#[export] Instance M_ret : MRet M := λ A a s, Ok a s.
#[export] Instance M_bind : MBind M := λ A B f m s,
  match m s with
  | Ok a s' => f a s'
  | Panic msg => Panic msg
  | Undef => Undef
  | OutOfFuel => OutOfFuel
  end.

Definition gets {A : Type} (f : state → A) : M A := λ s, Ok (f s) s.
Definition modify (f : state → state) : M unit := λ s, Ok tt (f s).
Definition panic {A : Type} (msg : string) : M A := λ _, Panic msg.
Definition undef {A : Type} : M A := λ _, Undef.
Definition out_of_fuel {A : Type} : M A := λ _, OutOfFuel.
Definition when_ (b : bool) (m : M unit) : M unit := if b then m else mret tt.

(** An array cell [a[i]]: defined inside the array only. *)
Definition cell {A : Type} (l : list A) (i : Z) : option A :=
  if decide (0 ≤ i) then l !! Z.to_nat i else None.

(** [p->data[i]] read, and [p->data[i].field = ...] *)
Definition load_data (i : Z) : M pageData := λ s,
  match cell (data s) i with
  | Some d => Ok d s
  | None => Undef
  end.
Definition store_data (i : Z) (f : pageData → pageData) : M unit := λ s,
  match cell (data s) i with
  | Some d => Ok tt (set_data (<[Z.to_nat i := f d]> (data s)) s)
  | None => Undef
  end.
Definition with_inUse (b : bool) (d : pageData) : pageData :=
  mkPageData b (offset d) (agingCounter d).
Definition with_offset (o : Z) (d : pageData) : pageData :=
  mkPageData (inUse d) o (agingCounter d).
Definition with_agingCounter (c : Z) (d : pageData) : pageData :=
  mkPageData (inUse d) (offset d) c.

(** [p->pages[i]] read and write *)
Definition load_pages (i : Z) : M Z := λ s,
  match cell (pages s) i with
  | Some x => Ok x s
  | None => Undef
  end.
Definition store_pages (i : Z) (x : Z) : M unit := λ s,
  match cell (pages s) i with
  | Some _ => Ok tt (set_pages (<[Z.to_nat i := x]> (pages s)) s)
  | None => Undef
  end.

(** An [int] product or sum: a signed overflow is undefined. *)
Definition int_of (x : Z) : M Z :=
  if decide (INT_MIN ≤ x ≤ INT_MAX) then mret x else undef.

(** ** Collaborators *)

(** Modelled from the spec: kalloc.c is not part of the sources;
    [alloc_frame() → frame_addr | null] takes the first free frame. *)
Definition kalloc : M Z := λ s,
  match kmem s with
  | [] => Ok 0 s
  | f :: fs => Ok f (set_kmem fs s)
  end.

(** Modelled from the spec: [free_frame(frame_addr)] gives the frame back. *)
Definition kfree (pa : Z) : M unit := modify (λ s, set_kmem (pa :: kmem s) s).

(** Modelled from the spec: [swap_write] returns the bytes transferred or a
    negative number on failure. *)
Definition writeToSwapFile (pa off n : Z) : M Z :=
  b ← gets swapFile; mret (if b : bool then n else -1).

(** Modelled from the spec: [swap_read]; the contents of frames are not part
    of the state, and vm.c ignores the result. *)
Definition readFromSwapFile (pa off n : Z) : M Z :=
  b ← gets swapFile; mret (if b : bool then n else -1).

Definition sfence_vma : M unit := mret tt.

(** ** Page-table pages *)

Definition empty_leaf : list Z := replicate 512 0.

Definition get_l1 (s : state) (pt i2 : Z) : option (gmap Z (list Z)) :=
  match ptmem s !! pt with
  | Some t2 => t2 !! i2
  | None => None
  end.
Definition get_l0 (s : state) (pt i2 i1 : Z) : option (list Z) :=
  match get_l1 s pt i2 with
  | Some t1 => t1 !! i1
  | None => None
  end.
Definition lookup_leaf (s : state) (r : pteptr) : option (list Z) :=
  get_l0 s (pp_root r) (pp_i2 r) (pp_i1 r).
Definition lookup_pte (s : state) (r : pteptr) : option Z :=
  match lookup_leaf s r with
  | Some lf => cell lf (pp_i0 r)
  | None => None
  end.

(** [*pte] *)
Definition load_pte (pte : option pteptr) : M Z := λ s,
  match pte with
  | None => Undef
  | Some r =>
      match lookup_pte s r with
      | Some v => Ok v s
      | None => Undef
      end
  end.

Definition update_leaf (r : pteptr) (f : list Z → list Z)
    (m : gmap Z (gmap Z (gmap Z (list Z)))) : gmap Z (gmap Z (gmap Z (list Z))) :=
  alter (alter (alter f (pp_i1 r)) (pp_i2 r)) (pp_root r) m.

(** [*pte = v] *)
Definition store_pte (pte : option pteptr) (v : Z) : M unit := λ s,
  match pte with
  | None => Undef
  | Some r =>
      match lookup_pte s r with
      | Some _ =>
          Ok tt (set_ptmem (update_leaf r (λ lf, <[Z.to_nat (pp_i0 r) := v]> lf) (ptmem s)) s)
      | None => Undef
      end
  end.

(** One level of [walk]: the entry [PX(level, va)] of the current page is
    followed when valid; otherwise a zeroed page is linked there when
    [alloc] is set and a frame is free.  [present] tells whether the entry
    is valid and [link] installs the new page. *)
Definition walk_level (alloc : bool) (present : state → bool) (link : state → state) : M bool :=
  p ← gets present;
  if p : bool then mret true
  else if negb alloc then mret false
  else
    pa ← kalloc;
    if decide (pa = 0) then mret false
    else modify link;; mret true.

Definition has_l1 (pt i2 : Z) (s : state) : bool :=
  bool_decide (is_Some (get_l1 s pt i2)).
Definition has_l0 (pt i2 i1 : Z) (s : state) : bool :=
  bool_decide (is_Some (get_l0 s pt i2 i1)).
Definition link_l1 (pt i2 : Z) (s : state) : state :=
  set_ptmem (alter (λ t2, <[i2 := ∅]> t2) pt (ptmem s)) s.
Definition link_l0 (pt i2 i1 : Z) (s : state) : state :=
  set_ptmem (alter (alter (λ t1, <[i1 := empty_leaf]> t1) i2) pt (ptmem s)) s.

Definition walk (pt va : Z) (alloc : bool) : M (option pteptr) :=
  if decide (MAXVA ≤ va) then panic "walk"
  else
    r ← gets (λ s, ptmem s !! pt);
    match r with
    | None => undef
    | Some _ =>
        ok2 ← walk_level alloc (has_l1 pt (PX 2 va)) (link_l1 pt (PX 2 va));
        if ok2 : bool then
          ok1 ← walk_level alloc (has_l0 pt (PX 2 va) (PX 1 va)) (link_l0 pt (PX 2 va) (PX 1 va));
          if ok1 : bool then mret (Some (mkPtr pt (PX 2 va) (PX 1 va) (PX 0 va)))
          else mret None
        else mret None
    end.

(** ** mappages *)

Fixpoint mappages_loop (fuel : nat) (pt a last pa perm : Z) : M Z :=
  match fuel with
  | O => out_of_fuel
  | S fuel' =>
      pte ← walk pt a true;
      match pte with
      | None => mret (-1)
      | Some _ =>
          v ← load_pte pte;
          if decide (Z.land v PTE_V ≠ 0) then panic "remap"
          else
            store_pte pte (Z.lor (Z.lor (PA2PTE pa) perm) PTE_V);;
            if decide (a = last) then mret 0
            else mappages_loop fuel' pt (u64 (a + PGSIZE)) last (u64 (pa + PGSIZE)) perm
      end
  end.

(** The loop leaves at [a == last] or by the panic of [walk] at [MAXVA]. *)
Definition mappages (pt va size pa perm : Z) : M Z :=
  let a := PGROUNDDOWN va in
  let last := PGROUNDDOWN (u64 (va + size - 1)) in
  mappages_loop (Z.to_nat ((Z.max last MAXVA - a) / PGSIZE + 1)) pt a last pa perm.

(** ** The resident queue *)

Definition in_ (page : Z) : M unit :=
  t ← gets tail;
  when_ (bool_decide (t = MAX_TOTAL_PAGES - 1)) (modify (set_tail (-1)));;
  modify (λ s, set_tail (tail s + 1) s);;
  t ← gets tail;
  store_pages t page;;
  modify (λ s, set_numOfPages (numOfPages s + 1) s).

Definition out : M unit :=
  h ← gets head;
  (if decide (h = MAX_TOTAL_PAGES - 1) then modify (set_head 0)
   else modify (λ s, set_head (head s + 1) s));;
  modify (λ s, set_numOfPages (numOfPages s - 1) s).

Fixpoint removePage_loop (fuel : nat) (pageNumber i : Z) : M unit :=
  n ← gets numOfPages;
  if decide (i < n) then
    match fuel with
    | O => out_of_fuel
    | S fuel' =>
        h ← gets head;
        page ← load_pages h;
        out;;
        when_ (bool_decide (page ≠ pageNumber)) (in_ page);;
        removePage_loop fuel' pageNumber (i + 1)
    end
  else mret tt.

(** [numOfPages - i] never grows, so the entries at entry bound the loop. *)
Definition removePage (pageNumber : Z) : M unit :=
  n ← gets numOfPages;
  removePage_loop (Z.to_nat n) pageNumber 0.

(** ** uvmunmap, uvmdealloc *)

Definition uvmunmap_page (sel : selection) (pt a : Z) (do_free : bool) : M unit :=
  pte ← walk pt a false;
  match pte with
  | None => mret tt
  | Some _ =>
      v ← load_pte pte;
      (if decide (Z.land v PTE_V ≠ 0) then
         if decide (PTE_FLAGS v = PTE_V) then panic "uvmunmap: not a leaf"
         else if do_free then
           kfree (PTE2PA v);;
           match sel with
           | NONE => mret tt
           | _ =>
               if decide (a / PGSIZE < 32) then
                 store_data (a / PGSIZE) (with_inUse false);;
                 modify (λ s, set_pagesInMemory
                                (if decide (pagesInMemory s = 0) then 0 else pagesInMemory s - 1) s);;
                 store_data (a / PGSIZE) (with_offset (-1));;
                 removePage (s32 (a / PGSIZE))
               else mret tt
           end
         else mret tt
       else
         match sel with
         | NONE => mret tt
         | _ =>
             if decide (a / PGSIZE < 32) then store_data (a / PGSIZE) (with_offset (-1))
             else mret tt
         end);;
      store_pte pte 0
  end.

Fixpoint uvmunmap_loop (fuel : nat) (sel : selection) (pt a bound : Z) (do_free : bool) : M unit :=
  if decide (a < bound) then
    match fuel with
    | O => out_of_fuel
    | S fuel' =>
        uvmunmap_page sel pt a do_free;;
        uvmunmap_loop fuel' sel pt (u64 (a + PGSIZE)) bound do_free
    end
  else mret tt.

Definition uvmunmap (sel : selection) (pt va npages : Z) (do_free : bool) : M unit :=
  if decide (va mod PGSIZE ≠ 0) then panic "uvmunmap: not aligned"
  else
    let bound := u64 (va + u64 (npages * PGSIZE)) in
    uvmunmap_loop (Z.to_nat ((bound - va + PGSIZE - 1) / PGSIZE)) sel pt va bound do_free.

Definition uvmdealloc (sel : selection) (pt oldsz newsz : Z) : M Z :=
  if decide (oldsz ≤ newsz) then mret oldsz
  else
    (if decide (PGROUNDUP newsz < PGROUNDUP oldsz) then
       let npages := s32 ((PGROUNDUP oldsz - PGROUNDUP newsz) / PGSIZE) in
       uvmunmap sel pt (PGROUNDUP newsz) (u64 npages) true
     else mret tt);;
    mret newsz.

(** ** getOffset *)

(** The inner loop: is offset [i] taken by one of [data[j..j+n)]? *)
Fixpoint offset_taken (n : nat) (j i : Z) : M bool :=
  match n with
  | O => mret false
  | S n' =>
      d ← load_data j;
      if decide (offset d = i) then mret true else offset_taken n' (j + 1) i
  end.

Fixpoint getOffset_loop (fuel : nat) (i : Z) : M Z :=
  size ← gets sz;
  if decide (i < size) then
    match fuel with
    | O => out_of_fuel
    | S fuel' =>
        taken ← offset_taken (Z.to_nat MAX_TOTAL_PAGES) 0 i;
        if taken : bool then
          i' ← int_of (i + PGSIZE);
          getOffset_loop fuel' i'
        else mret (u32 i)
    end
  else mret 0.

(** At most [MAX_TOTAL_PAGES] offsets are taken, so the scan ends within
    [MAX_TOTAL_PAGES + 1] rounds. *)
Definition getOffset : M Z := getOffset_loop (Z.to_nat (MAX_TOTAL_PAGES + 1)) 0.

(** ** Replacement policies *)

Fixpoint nfua_loop (n : nat) (i min index : Z) : M Z :=
  match n with
  | O => mret index
  | S n' =>
      d ← load_data i;
      if inUse d && bool_decide (agingCounter d < min)
      then nfua_loop n' (i + 1) (agingCounter d) i
      else nfua_loop n' (i + 1) min index
  end.

Definition nfua : M Z :=
  nfua_loop (Z.to_nat (MAX_TOTAL_PAGES - 3)) 3 (u32 (Z.shiftl 1 31)) (-1).

Fixpoint countOnes_loop (fuel : nat) (age count : Z) : M Z :=
  if decide (age ≠ 0) then
    match fuel with
    | O => out_of_fuel
    | S fuel' => countOnes_loop fuel' (Z.shiftr age 1) (u32 (count + Z.land age 1))
    end
  else mret (s32 count).

Definition countOnes (age : Z) : M Z := countOnes_loop 32 age 0.

Fixpoint lapa_loop (n : nat) (i minOnes minAge pageIndex : Z) : M Z :=
  match n with
  | O => mret pageIndex
  | S n' =>
      d ← load_data i;
      if inUse d then
        let age := agingCounter d in
        numOfOnes ← countOnes age;
        if bool_decide (minOnes = -1) || bool_decide (numOfOnes < minOnes)
           || (bool_decide (numOfOnes = minOnes) && bool_decide (age < u32 minAge))
        then lapa_loop n' (i + 1) numOfOnes (s32 age) i
        else lapa_loop n' (i + 1) minOnes minAge pageIndex
      else lapa_loop n' (i + 1) minOnes minAge pageIndex
  end.

Definition lapa : M Z :=
  lapa_loop (Z.to_nat (MAX_TOTAL_PAGES - 3)) 3 (-1) (-1) (-1).

(** One round of the loop of [scfifo]; [Some page] is [return page]. *)
Definition scfifo_round : M (option Z) :=
  h ← gets head;
  page ← load_pages h;
  va ← int_of (page * PGSIZE);
  pt ← gets pagetable;
  pte ← walk pt (u64 va) false;
  v ← load_pte pte;
  if decide (Z.land (u32 (PTE_FLAGS v)) PTE_A ≠ 0) then
    store_pte pte (clear_bits v PTE_A);;
    out;;
    in_ page;;
    mret None
  else
    out;;
    mret (Some page).

Fixpoint scfifo_loop (fuel : nat) (i : Z) : M Z :=
  n ← gets numOfPages;
  if decide (i < n) then
    match fuel with
    | O => out_of_fuel
    | S fuel' =>
        r ← scfifo_round;
        match r with
        | Some page => mret page
        | None => scfifo_loop fuel' (i + 1)
        end
    end
  else
    h ← gets head;
    page ← load_pages h;
    out;;
    mret page.

(** A round that goes on keeps [numOfPages], so its value at entry bounds
    the loop. *)
Definition scfifo : M Z :=
  n ← gets numOfPages;
  scfifo_loop (Z.to_nat n) 0.

Definition getIndexToRemove (sel : selection) : M Z :=
  match sel with
  | NFUA => nfua
  | LAPA => lapa
  | SCFIFO => scfifo
  | NONE => mret 0
  end.

(** ** Swap-out and swap-in *)

Definition page_to_file (sel : selection) (pageOffset : Z) : M unit :=
  index ← getIndexToRemove sel;
  va ← int_of (index * PGSIZE);
  pt ← gets pagetable;
  pte ← walk pt (u64 va) false;
  v ← load_pte pte;
  let pha := PTE2PA v in
  r ← writeToSwapFile pha pageOffset PGSIZE;
  if decide (r < 0) then panic "write to file failed"
  else
    kfree pha;;
    store_pte pte (Z.lor (clear_bits v PTE_V) PTE_PG);;
    store_data index (with_offset (s32 pageOffset));;
    store_data index (with_inUse false);;
    modify (λ s, set_pagesInMemory (pagesInMemory s - 1) s).

Definition initAging (sel : selection) (page : Z) : M Z :=
  match sel with
  | NFUA => mret 0
  | LAPA => mret 4294967295
  | SCFIFO => in_ page;; mret 0
  | NONE => mret 0
  end.

Definition swap_in (sel : selection) (va : Z) (pte : option pteptr) : M unit :=
  let missingPageIndex := s32 (PGROUNDDOWN va / PGSIZE) in
  d ← load_data missingPageIndex;
  if decide (offset d = -1) then panic "Fail in handling page fault"
  else
    let pageOffset := u32 (offset d) in
    buff ← kalloc;
    if decide (buff = 0) then panic "Fail in kalloc while handling page fault"
    else
      readFromSwapFile buff pageOffset PGSIZE;;
      pim ← gets pagesInMemory;
      (if decide (pim < MAX_PSYC_PAGES) then
         store_pte pte (Z.lor (PA2PTE buff) PTE_V)
       else
         page_to_file sel pageOffset;;
         v ← load_pte pte;
         store_pte pte (Z.lor (PA2PTE buff) (Z.lor (clear_bits (PTE_FLAGS v) PTE_PG) PTE_V)));;
      ag ← initAging sel missingPageIndex;
      store_data missingPageIndex (with_agingCounter ag);;
      store_data missingPageIndex (with_offset (-1));;
      store_data missingPageIndex (with_inUse true);;
      modify (λ s, set_pagesInMemory (pagesInMemory s + 1) s);;
      sfence_vma.

(** ** Address-space growth *)

Definition PERM_URWX : Z := Z.lor (Z.lor (Z.lor PTE_W PTE_X) PTE_R) PTE_U.

(** One round of the loop of [NONE_uvmalloc]; also the [pid <= 1] branch of
    [uvmalloc].  [Some r] is [return r]. *)
Definition plain_page (sel : selection) (pt a oldsz : Z) : M (option Z) :=
  mem ← kalloc;
  if decide (mem = 0) then
    uvmdealloc sel pt a oldsz;; mret (Some 0)
  else
    r ← mappages pt a PGSIZE mem PERM_URWX;
    if decide (r ≠ 0) then
      kfree mem;; uvmdealloc sel pt a oldsz;; mret (Some 0)
    else mret None.

Fixpoint NONE_uvmalloc_loop (fuel : nat) (pt a oldsz newsz : Z) : M Z :=
  if decide (a < newsz) then
    match fuel with
    | O => out_of_fuel
    | S fuel' =>
        r ← plain_page NONE pt a oldsz;
        match r with
        | Some x => mret x
        | None => NONE_uvmalloc_loop fuel' pt (u64 (a + PGSIZE)) oldsz newsz
        end
    end
  else mret newsz.

Definition alloc_fuel (a newsz : Z) : nat := Z.to_nat ((newsz - a + PGSIZE - 1) / PGSIZE).

Definition NONE_uvmalloc (pt oldsz newsz : Z) : M Z :=
  if decide (newsz < oldsz) then mret oldsz
  else
    let oldsz := PGROUNDUP oldsz in
    NONE_uvmalloc_loop (alloc_fuel oldsz newsz) pt oldsz oldsz newsz.

(** One round of the loop of [uvmalloc] under a paging policy. *)
Definition uvmalloc_page (sel : selection) (pt a oldsz newsz : Z) : M (option Z) :=
  p ← gets pid;
  if decide (1 < p) then
    let numOfPages := a / PGSIZE in
    if decide (MAX_TOTAL_PAGES < numOfPages) then mret (Some (u64 (-1)))
    else
      pim ← gets pagesInMemory;
      if decide (MAX_PSYC_PAGES ≤ pim) then
        off ← getOffset;
        page_to_file sel off;;
        mem ← kalloc;
        r ← mappages pt a PGSIZE mem PERM_URWX;
        if decide (r < 0) then
          uvmdealloc sel pt newsz oldsz;; mret (Some 0)
        else
          store_data numOfPages (with_inUse true);;
          modify (λ s, set_pagesInMemory (pagesInMemory s + 1) s);;
          store_data numOfPages (with_offset (-1));;
          ag ← initAging sel (s32 numOfPages);
          store_data numOfPages (with_agingCounter ag);;
          mret None
      else
        mem ← kalloc;
        if decide (mem = 0) then
          uvmdealloc sel pt a oldsz;; mret (Some 0)
        else
          r ← mappages pt a PGSIZE mem PERM_URWX;
          if decide (r < 0) then
            kfree mem;; uvmdealloc sel pt a oldsz;; mret (Some 0)
          else
            store_data numOfPages (with_inUse true);;
            modify (λ s, set_pagesInMemory (pagesInMemory s + 1) s);;
            ag ← initAging sel (s32 numOfPages);
            store_data numOfPages (with_agingCounter ag);;
            mret None
  else plain_page sel pt a oldsz.

Fixpoint uvmalloc_loop (fuel : nat) (sel : selection) (pt a oldsz newsz : Z) : M Z :=
  if decide (a < newsz) then
    match fuel with
    | O => out_of_fuel
    | S fuel' =>
        r ← uvmalloc_page sel pt a oldsz newsz;
        match r with
        | Some x => mret x
        | None => uvmalloc_loop fuel' sel pt (u64 (a + PGSIZE)) oldsz newsz
        end
    end
  else mret newsz.

Definition uvmalloc (sel : selection) (pt oldsz newsz : Z) : M Z :=
  match sel with
  | NONE => NONE_uvmalloc pt oldsz newsz
  | _ =>
      if decide (newsz < oldsz) then mret oldsz
      else
        let oldsz := PGROUNDUP oldsz in
        uvmalloc_loop (alloc_fuel oldsz newsz) sel pt oldsz oldsz newsz
  end.

(** ** The aging tick *)

Fixpoint updateAging_loop (n : nat) (i : Z) : M unit :=
  match n with
  | O => mret tt
  | S n' =>
      pt ← gets pagetable;
      pte ← walk pt (u64 (i * PGSIZE)) false;
      v ← load_pte pte;
      (if decide (Z.land v PTE_V ≠ 0) then
         store_data i (λ d, with_agingCounter (Z.shiftr (agingCounter d) 1) d);;
         v ← load_pte pte;
         if decide (Z.land v PTE_A ≠ 0) then
           store_data i (λ d, with_agingCounter (u32 (Z.lor (agingCounter d) (Z.shiftl 1 31))) d);;
           v ← load_pte pte;
           store_pte pte (clear_bits v PTE_A)
         else mret tt
       else mret tt);;
      updateAging_loop n' (i + 1)
  end.

Definition updateAging (sel : selection) : M unit :=
  match sel with
  | NFUA | LAPA => updateAging_loop (Z.to_nat MAX_TOTAL_PAGES) 0
  | _ => mret tt
  end.

(** ** States used in examples *)

(** Modelled from the spec: a process before its first allocation.  Every
    slot is Unallocated ([in_use = false], [offset = -1]), the queue is
    empty and the page table is an empty root at address [root]. *)
Definition fresh_proc (p root : Z) (frames : list Z) : state :=
  mkState p 0 root (replicate 32 (mkPageData false (-1) 0)) 0 (replicate 32 0) 0 (-1) 0
          true frames {[ root := ∅ ]}.

Definition frame_list (n : nat) : list Z :=
  map (λ k, 2147483648 + Z.of_nat k * PGSIZE) (seq 1 n).

(** Modelled from the spec: the hardware sets the accessed bit of a valid
    PTE when the page is used. *)
Definition cpu_access (i : Z) : M unit :=
  pt ← gets pagetable;
  pte ← walk pt (u64 (i * PGSIZE)) false;
  v ← load_pte pte;
  if decide (Z.land v PTE_V ≠ 0) then store_pte pte (Z.lor v PTE_A) else mret tt.

Fixpoint cpu_access_all (l : list Z) : M unit :=
  match l with
  | [] => mret tt
  | i :: l' => cpu_access i;; cpu_access_all l'
  end.

(** ** Victim selection of NFUA, as the spec words it *)

Definition counter_at (s : state) (i : Z) : option Z :=
  match cell (data s) i with
  | Some d => if inUse d then Some (agingCounter d) else None
  | None => None
  end.

(** [v] is the resident page of index 3 or more with the smallest aging
    counter, the lowest index among equals. *)
Definition nfua_victim (s : state) (v : Z) : Prop :=
  3 ≤ v < MAX_TOTAL_PAGES ∧
  ∃ c, counter_at s v = Some c ∧
       (∀ j cj, 3 ≤ j < MAX_TOTAL_PAGES → counter_at s j = Some cj → c ≤ cj) ∧
       (∀ j cj, 3 ≤ j < v → counter_at s j = Some cj → c < cj).

(** The loop invariant of [nfua] after the indices below [i]. *)
Definition nfua_inv (s : state) (i min index : Z) : Prop :=
  (∀ j cj, 3 ≤ j < i → counter_at s j = Some cj → min ≤ cj) ∧
  ((index = -1 ∧ min = 2 ^ 31) ∨
   (3 ≤ index < i ∧ min < 2 ^ 31 ∧ counter_at s index = Some min ∧
    ∀ j cj, 3 ≤ j < index → counter_at s j = Some cj → min < cj)).

(** No resident page of index 3 or more has a counter below [2^31]. *)
Definition all_recent (s : state) : Prop :=
  ∀ j cj, 3 ≤ j < MAX_TOTAL_PAGES → counter_at s j = Some cj → 2 ^ 31 ≤ cj.

Definition all_recentb (s : state) : bool :=
  forallb (λ j, match counter_at s j with Some c => bool_decide (2 ^ 31 ≤ c) | None => true end)
          (seqZ 3 (MAX_TOTAL_PAGES - 3)).

(** A process grows from nothing to [n] pages, uses the pages of [touched]
    and is then rescheduled, which runs the aging tick. *)
Definition grow_touch_tick (sel : selection) (n : Z) (touched : list Z) : M unit :=
  pt ← gets pagetable;
  uvmalloc sel pt 0 (n * PGSIZE);;
  cpu_access_all touched;;
  updateAging sel.

(** ** Swap-file slots, as the spec words them *)

(** [i] is a page-aligned offset of [[0, process_size)]. *)
Definition swap_slot (s : state) (i : Z) : Prop :=
  0 ≤ i < sz s ∧ i mod PGSIZE = 0.

(** No [PageMeta] entry has offset [i]. *)
Definition offset_free (s : state) (i : Z) : Prop :=
  ∀ d, d ∈ data s → offset d ≠ i.

(** A one-page process whose page 0 is on disk at offset 0. *)
Definition one_page_on_disk : state :=
  mkState 2 PGSIZE 1000 (<[0%nat := mkPageData false 0 0]> (replicate 32 (mkPageData false (-1) 0)))
          0 (replicate 32 0) 0 (-1) 0 true [] {[ 1000 := ∅ ]}.

(** ** The resident queue as a list *)

(** The entry [k] places after [h] in the circular buffer. *)
Definition slot (pg : list Z) (h k : Z) : Z :=
  default 0 (cell pg ((h + k) mod MAX_TOTAL_PAGES)).

Definition ring (pg : list Z) (h n : Z) : list Z := slot pg h <$> seqZ 0 n.

(** The queued pages from [head] to [tail]. *)
Definition queue (s : state) : list Z := ring (pages s) (head s) (numOfPages s).

(** The cursors are inside the buffer and [tail] is the last of the
    [numOfPages] entries that start at [head] ([tail] is -1 before the
    first [in]). *)
Definition queue_wf (s : state) : Prop :=
  Z.of_nat (length (pages s)) = MAX_TOTAL_PAGES ∧
  0 ≤ head s < MAX_TOTAL_PAGES ∧
  -1 ≤ tail s < MAX_TOTAL_PAGES ∧
  0 ≤ numOfPages s ≤ MAX_TOTAL_PAGES ∧
  (tail s + 1) mod MAX_TOTAL_PAGES = (head s + numOfPages s) mod MAX_TOTAL_PAGES.

(** What is left of the state when the queue is taken away. *)
Definition beside_queue (s : state) :
    Z * Z * Z * list pageData * Z * bool * list Z * gmap Z (gmap Z (gmap Z (list Z))) :=
  (pid s, sz s, pagetable s, data s, pagesInMemory s, swapFile s, kmem s, ptmem s).

(** The states after [out()] and after [in(page)]. *)
Definition out_state (s : state) : state :=
  set_numOfPages (numOfPages s - 1)
    (set_head (if decide (head s = MAX_TOTAL_PAGES - 1) then 0 else head s + 1) s).

Definition next_tail (s : state) : Z :=
  (if decide (tail s = MAX_TOTAL_PAGES - 1) then -1 else tail s) + 1.

Definition in_state (page : Z) (s : state) : state :=
  set_numOfPages (numOfPages s + 1)
    (set_pages (<[Z.to_nat (next_tail s) := page]> (pages s)) (set_tail (next_tail s) s)).

(** The loop of [removePage] on the list of queued pages: round [i] runs
    while [i] is below the current length. *)
Fixpoint remove_rounds (fuel : nat) (pageNumber i : Z) (q : list Z) : list Z :=
  match fuel with
  | O => q
  | S fuel' =>
      if decide (i < Z.of_nat (length q)) then
        match q with
        | [] => q
        | x :: q' =>
            remove_rounds fuel' pageNumber (i + 1) (if decide (x = pageNumber) then q' else q' ++ [x])
        end
      else q
  end.

(** A process with the pages [l] queued from slot 0 on. *)
Definition queue_of (l : list Z) : state :=
  mkState 2 0 1000 (replicate 32 (mkPageData false (-1) 0)) 0
          (l ++ replicate (32 - length l) 0) 0 (Z.of_nat (length l) - 1) (Z.of_nat (length l))
          true [] {[ 1000 := ∅ ]}.

(** ** Page-table entries by address *)

(** The slot that [walk] reaches for [va] in the table rooted at [pt]. *)
Definition va_ptr (pt va : Z) : pteptr := mkPtr pt (PX 2 va) (PX 1 va) (PX 0 va).

(** The PTE of [va]; [None] when [walk(pt, va, 0)] finds no level-0 page. *)
Definition pte_at (s : state) (pt va : Z) : option Z := lookup_pte s (va_ptr pt va).

(** The PTE of page [i] of the current process, for an index whose
    address [i * PGSIZE] is an [int]. *)
Definition page_pte (s : state) (i : Z) : option Z :=
  if decide (0 ≤ i < 2 ^ 19) then pte_at s (pagetable s) (i * PGSIZE) else None.

(** Every level-0 page has its 512 entries. *)
Definition leaves_wf (s : state) : Prop :=
  ∀ pt i2 i1 lf, get_l0 s pt i2 i1 = Some lf → length lf = 512%nat.

(** The state with [*r = v]. *)
Definition poke (r : pteptr) (v : Z) (s : state) : state :=
  set_ptmem (update_leaf r (λ lf, <[Z.to_nat (pp_i0 r) := v]> lf) (ptmem s)) s.

(** What a victim selection leaves alone: everything but the queue and the
    page-table pages. *)
Definition proc_meta (s : state) : Z * Z * Z * list pageData * Z * bool * list Z :=
  (pid s, sz s, pagetable s, data s, pagesInMemory s, swapFile s, kmem s).

(** [b] is [a], possibly with the accessed bit cleared. *)
Definition pte_aged (a b : Z) : Prop := b = a ∨ b = clear_bits a PTE_A.

Definition ptes_aged (s s1 : state) : Prop :=
  ∀ r, match lookup_pte s r, lookup_pte s1 r with
       | Some a, Some b => pte_aged a b
       | None, None => True
       | _, _ => False
       end.

(** ** More example states *)

(** A process whose circular buffer is [pg], with the given cursors. *)
Definition ring_state (pg : list Z) (h t n : Z) : state :=
  mkState 2 0 1000 (replicate 32 (mkPageData false (-1) 0)) 0 pg h t n true [] {[ 1000 := ∅ ]}.

(** Two entries, 7 and 8, in the last two slots of the buffer. *)
Definition wrapping_queue : state := ring_state (replicate 30 0 ++ [7; 8]) 30 31 2.

(** A full buffer holding 0, 1, ..., 31 from slot 0 on. *)
Definition full_queue : state := ring_state (seqZ 0 32) 0 31 32.

(** A process with the given [PageMeta] entries in slots 3, 4, 5, ... *)
Definition meta_state (l : list pageData) : state :=
  mkState 2 0 1000
          (replicate 3 (mkPageData true (-1) 0) ++ l ++
           replicate (29 - length l) (mkPageData false (-1) 0))
          0 (replicate 32 0) 0 (-1) 0 true [] {[ 1000 := ∅ ]}.

(** Pages 3 and 4 resident with counter 5, page 5 resident with counter 7,
    page 6 on disk. *)
Definition aging_example : state :=
  meta_state [mkPageData true (-1) 5; mkPageData true (-1) 5; mkPageData true (-1) 7;
              mkPageData false 4096 1].

(** ** walkaddr, uvmclear, uvmcreate, uvminit, uvmcopy *)

Definition walkaddr (pt va : Z) : M Z :=
  if decide (MAXVA ≤ va) then mret 0
  else
    pte ← walk pt va false;
    match pte with
    | None => mret 0
    | Some _ =>
        v ← load_pte pte;
        if decide (Z.land v PTE_V = 0) then mret 0
        else if decide (Z.land v PTE_U = 0) then mret 0
        else mret (PTE2PA v)
    end.

Definition uvmclear (pt va : Z) : M unit :=
  pte ← walk pt va false;
  match pte with
  | None => panic "uvmclear"
  | Some _ =>
      v ← load_pte pte;
      store_pte pte (clear_bits v PTE_U)
  end.

(** The new root is a zeroed page: none of its entries is valid. *)
Definition uvmcreate : M Z :=
  pa ← kalloc;
  if decide (pa = 0) then mret 0
  else modify (λ s, set_ptmem (<[pa := ∅]> (ptmem s)) s);; mret pa.

(** The bytes copied from [src] are not part of the state. *)
Definition uvminit (pt sz : Z) : M unit :=
  if decide (PGSIZE ≤ sz) then panic "inituvm: more than a page"
  else
    mem ← kalloc;
    mappages pt 0 PGSIZE mem (Z.lor (Z.lor (Z.lor PTE_W PTE_R) PTE_X) PTE_U);;
    mret tt.

(** One round of the loop of [uvmcopy]; [false] is [goto err]. *)
Definition uvmcopy_page (old new i : Z) : M bool :=
  pte ← walk old i false;
  match pte with
  | None => mret true
  | Some _ =>
      v ← load_pte pte;
      if decide (Z.land v PTE_V ≠ 0) then
        let flags := u32 (PTE_FLAGS v) in
        mem ← kalloc;
        if decide (mem = 0) then mret false
        else
          r ← mappages new i PGSIZE mem flags;
          if decide (r ≠ 0) then kfree mem;; mret false
          else mret true
      else mret true
  end.

Fixpoint uvmcopy_loop (fuel : nat) (sel : selection) (old new sz i : Z) : M Z :=
  if decide (i < sz) then
    match fuel with
    | O => out_of_fuel
    | S fuel' =>
        ok ← uvmcopy_page old new i;
        if ok : bool then uvmcopy_loop fuel' sel old new sz (u64 (i + PGSIZE))
        else uvmunmap sel new 0 (i / PGSIZE) true;; mret (-1)
    end
  else mret 0.

Definition uvmcopy (sel : selection) (old new sz : Z) : M Z :=
  uvmcopy_loop (alloc_fuel 0 sz) sel old new sz 0.

(** A process with one level-0 page whose first entries are [ptes]. *)
Definition leaf_state (ptes : list Z) (frames : list Z) : state :=
  mkState 2 0 1000 (replicate 32 (mkPageData false (-1) 0)) 0 (replicate 32 0) 0 (-1) 0 true
          frames {[ 1000 := {[ 0 := {[ 0 := ptes ++ replicate (512 - length ptes) 0 ]} ]} ]}.

(** A process with pages 0 to 4 resident and mapped ([ptes] are their
    PTEs), under the queue 0, 1, 2, 3, 4. *)
Definition five_pages (ptes : list Z) : state :=
  mkState 2 (5 * PGSIZE) 1000
          (replicate 5 (mkPageData true (-1) 0) ++ replicate 27 (mkPageData false (-1) 0))
          5 (seqZ 0 5 ++ replicate 27 0) 0 4 5 true []
          {[ 1000 := {[ 0 := {[ 0 := ptes ++ replicate (512 - length ptes) 0 ]} ]} ]}.

(** A valid user page with frame number [n], and the same page after the
    hardware has set its accessed bit. *)
Definition user_pte (n : Z) : Z := Z.lor (Z.shiftl n 10) 31.
Definition used_pte (n : Z) : Z := Z.lor (Z.shiftl n 10) 95.


(** * Properties *)

(** ** Reasoning in the monad *)

Lemma bind_Ok {A B : Type} (m : M A) (f : A → M B) (s s' : state) (a : A) :
  m s = Ok a s' → (m ≫= f) s = f a s'.
Proof. intros H. unfold mbind, M_bind. by rewrite H. Qed.

Lemma bind_Ok_inv {A B : Type} (m : M A) (f : A → M B) (s s2 : state) (b : B) :
  (m ≫= f) s = Ok b s2 → ∃ a s1, m s = Ok a s1 ∧ f a s1 = Ok b s2.
Proof.
  unfold mbind, M_bind. destruct (m s) as [a s1| | |]; try discriminate.
  intros H. by exists a, s1.
Qed.

Lemma cell_Some {A : Type} (l : list A) (i : Z) :
  0 ≤ i < Z.of_nat (length l) → ∃ x, cell l i = Some x.
Proof.
  intros H. unfold cell. rewrite decide_True by lia.
  apply lookup_lt_is_Some. lia.
Qed.

Lemma cell_lookup {A : Type} (l : list A) (i : Z) (x : A) :
  cell l i = Some x → 0 ≤ i < Z.of_nat (length l) ∧ l !! Z.to_nat i = Some x.
Proof.
  unfold cell. destruct (decide (0 ≤ i)); [|discriminate].
  intros H. split; [|done]. apply lookup_lt_Some in H. lia.
Qed.

Lemma load_data_Ok (s : state) (i : Z) (d : pageData) :
  cell (data s) i = Some d → load_data i s = Ok d s.
Proof. intros H. unfold load_data. by rewrite H. Qed.

(** ** NFUA *)

Lemma nfua_loop_inv (s : state) (n : nat) (i min index : Z) :
  Z.of_nat (length (data s)) = MAX_TOTAL_PAGES →
  3 ≤ i → i + Z.of_nat n = MAX_TOTAL_PAGES →
  nfua_inv s i min index →
  ∃ min' r, nfua_loop n i min index s = Ok r s ∧ nfua_inv s MAX_TOTAL_PAGES min' r.
Proof.
  intros Hlen. revert i min index.
  induction n as [|n IH]; intros i min index Hi Hn Hinv.
  - exists min, index. simpl. replace i with MAX_TOTAL_PAGES in Hinv by lia. done.
  - destruct (cell_Some (data s) i) as [d Hd]; [unfold MAX_TOTAL_PAGES in *; lia|].
    cbn [nfua_loop]. rewrite (bind_Ok _ _ s s d) by by apply load_data_Ok.
    destruct Hinv as [Hlow Hidx].
    assert (Hc : counter_at s i = if inUse d then Some (agingCounter d) else None)
      by (unfold counter_at; by rewrite Hd).
    destruct (inUse d) eqn:Hu; simpl.
    + case_bool_decide as Hlt.
      * apply IH; [lia|lia|]. split.
        -- intros j cj Hj Hcj. destruct (decide (j = i)) as [->|Hne].
           ++ rewrite Hc in Hcj. injection Hcj as <-. lia.
           ++ specialize (Hlow j cj ltac:(lia) Hcj). lia.
        -- right. split; [lia|]. split; [|split; [done|]].
           ++ destruct Hidx as [[_ ->]|(_ & ? & _)]; lia.
           ++ intros j cj Hj Hcj. specialize (Hlow j cj ltac:(lia) Hcj). lia.
      * apply IH; [lia|lia|]. split.
        -- intros j cj Hj Hcj. destruct (decide (j = i)) as [->|Hne].
           ++ rewrite Hc in Hcj. injection Hcj as <-. lia.
           ++ specialize (Hlow j cj ltac:(lia) Hcj). lia.
        -- destruct Hidx as [?|(? & ? & ? & ?)]; [by left|right]. repeat split; try done; lia.
    + apply IH; [lia|lia|]. split.
      * intros j cj Hj Hcj. destruct (decide (j = i)) as [->|Hne].
        -- rewrite Hc in Hcj. discriminate.
        -- specialize (Hlow j cj ltac:(lia) Hcj). lia.
      * destruct Hidx as [?|(? & ? & ? & ?)]; [by left|right]. repeat split; try done; lia.
Qed.

Lemma nfua_result (s : state) :
  Z.of_nat (length (data s)) = MAX_TOTAL_PAGES →
  ∃ min r, nfua s = Ok r s ∧ nfua_inv s MAX_TOTAL_PAGES min r.
Proof.
  intros Hlen. unfold nfua. apply nfua_loop_inv; [done|lia|done|].
  split; [intros; lia|]. left. done.
Qed.

(** When some resident page of index 3 or more has a counter below [2^31],
    [nfua] returns the victim the spec describes. *)
Lemma nfua_below_bound (s : state) (j cj : Z) :
  Z.of_nat (length (data s)) = MAX_TOTAL_PAGES →
  3 ≤ j < MAX_TOTAL_PAGES → counter_at s j = Some cj → cj < 2 ^ 31 →
  ∃ v, nfua s = Ok v s ∧ nfua_victim s v.
Proof.
  intros Hlen Hj Hcj Hlt.
  destruct (nfua_result s Hlen) as (min & r & Hr & Hlow & Hidx).
  exists r. split; [done|].
  destruct Hidx as [[-> ->]|(Hrange & Hmin & Hc & Hfirst)].
  - specialize (Hlow j cj Hj Hcj). lia.
  - split; [done|]. exists min. repeat split; done.
Qed.

(** When no resident page of index 3 or more has a counter below [2^31],
    [nfua] returns -1. *)
Lemma nfua_minus_one (s : state) :
  Z.of_nat (length (data s)) = MAX_TOTAL_PAGES →
  (∀ j cj, 3 ≤ j < MAX_TOTAL_PAGES → counter_at s j = Some cj → 2 ^ 31 ≤ cj) →
  nfua s = Ok (-1) s.
Proof.
  intros Hlen Hall.
  destruct (nfua_result s Hlen) as (min & r & Hr & Hlow & Hidx).
  destruct Hidx as [[-> ->]|(Hrange & Hmin & Hc & Hfirst)]; [done|].
  specialize (Hall r min Hrange Hc). lia.
Qed.

Lemma all_recentb_sound (s : state) : all_recentb s = true → all_recent s.
Proof.
  unfold all_recentb, all_recent. rewrite forallb_forall.
  intros H j cj Hj Hc. specialize (H j).
  rewrite Hc in H.
  assert (Hin : In j (seqZ 3 (MAX_TOTAL_PAGES - 3)))
    by (apply list_elem_of_In, elem_of_seqZ; unfold MAX_TOTAL_PAGES in *; lia).
  specialize (H Hin). by apply bool_decide_eq_true_1 in H.
Qed.

Lemma walk_minus_one (s : state) (pt : Z) (alloc : bool) :
  walk pt (u64 (-1 * PGSIZE)) alloc s = Panic "walk".
Proof. reflexivity. Qed.

Lemma page_to_file_nfua_minus_one (s : state) (off : Z) :
  nfua s = Ok (-1) s → page_to_file NFUA off s = Panic "walk".
Proof.
  intros H. unfold page_to_file. cbn [getIndexToRemove].
  rewrite (bind_Ok _ _ s s (-1)) by done. reflexivity.
Qed.

(** C3, at the failing input: a process of four pages used page 3 during
    the last tick, so page 3 is resident with counter [2^31] and is the only
    resident page of index 3 or more; [nfua] returns -1 and not 3. *)
Theorem nfua_misses_recent_page :
  ∃ s, grow_touch_tick NFUA 4 [3] (fresh_proc 2 1000 (frame_list 8)) = Ok tt s ∧
       counter_at s 3 = Some (2 ^ 31) ∧
       (∀ j, 3 < j < MAX_TOTAL_PAGES → counter_at s j = None) ∧
       nfua s = Ok (-1) s.
Proof.
  eexists. split; [vm_compute; reflexivity|].
  split; [reflexivity|]. split; [|reflexivity].
  intros j Hj.
  assert (Hin : j ∈ seqZ 4 28) by (apply elem_of_seqZ; unfold MAX_TOTAL_PAGES in Hj; lia).
  clear Hj. revert j Hin. apply Forall_forall. vm_compute.
  repeat (constructor; [reflexivity|]). constructor.
Qed.

(** C10: in a state where no resident page of index 3 or more has a
    counter below [2^31] (in particular where no such page is resident),
    [nfua] returns -1 and [page_to_file] hands [-1 * PGSIZE], converted to
    [uint64], to [walk], which panics.  Such a state is reached by a process
    that grows to 16 pages and uses all of them before the next tick; its
    next page of growth panics. *)
Theorem nfua_no_victim_reaches_walk :
  (∀ s off, Z.of_nat (length (data s)) = MAX_TOTAL_PAGES → all_recent s →
     nfua s = Ok (-1) s ∧
     walk (pagetable s) (u64 (-1 * PGSIZE)) false s = Panic "walk" ∧
     page_to_file NFUA off s = Panic "walk") ∧
  (∃ s, grow_touch_tick NFUA 16 (seqZ 0 16) (fresh_proc 2 1000 (frame_list 24)) = Ok tt s ∧
        all_recent s ∧ counter_at s 3 = Some (2 ^ 31) ∧
        uvmalloc NFUA (pagetable s) (16 * PGSIZE) (17 * PGSIZE) s = Panic "walk").
Proof.
  split.
  - intros s off Hlen Hall.
    assert (Hn : nfua s = Ok (-1) s) by by apply nfua_minus_one.
    split; [done|]. split; [apply walk_minus_one|by apply page_to_file_nfua_minus_one].
  - eexists. split; [vm_compute; reflexivity|].
    split; [by apply all_recentb_sound|]. split; reflexivity.
Qed.

Lemma nfua_no_victim_reaches_walk_witness :
  Z.of_nat (length (data (fresh_proc 2 1000 []))) = MAX_TOTAL_PAGES ∧
  all_recent (fresh_proc 2 1000 []) ∧
  nfua (fresh_proc 2 1000 []) = Ok (-1) (fresh_proc 2 1000 []) ∧
  page_to_file NFUA 0 (fresh_proc 2 1000 []) = Panic "walk".
Proof.
  assert (Hlen : Z.of_nat (length (data (fresh_proc 2 1000 []))) = MAX_TOTAL_PAGES)
    by reflexivity.
  assert (Hall : all_recent (fresh_proc 2 1000 [])) by (by apply all_recentb_sound).
  split; [exact Hlen|]. split; [exact Hall|].
  destruct (proj1 nfua_no_victim_reaches_walk (fresh_proc 2 1000 []) 0 Hlen Hall)
    as (H1 & _ & H3).
  split; [exact H1|exact H3].
Defined.

(** ** getOffset *)

Lemma offset_taken_spec (s : state) (i : Z) (n : nat) (j : Z) :
  0 ≤ j → j + Z.of_nat n ≤ Z.of_nat (length (data s)) →
  ∃ b, offset_taken n j i s = Ok b s ∧
       (b = true ↔ ∃ j' d, j ≤ j' < j + Z.of_nat n ∧ cell (data s) j' = Some d ∧ offset d = i).
Proof.
  revert j. induction n as [|n IH]; intros j Hj Hlen.
  - exists false. split; [done|]. split; [done|]. intros (j' & d & ? & _). lia.
  - destruct (cell_Some (data s) j) as [d Hd]; [lia|].
    cbn [offset_taken]. rewrite (bind_Ok _ _ s s d) by by apply load_data_Ok.
    destruct (decide (offset d = i)) as [Heq|Hne].
    + exists true. split; [done|]. split; [|done]. intros _. exists j, d. split; [lia|done].
    + destruct (IH (j + 1)) as (b & Hb & Hiff); [lia|lia|].
      exists b. split; [done|]. rewrite Hiff. split.
      * intros (j' & d' & ? & ? & ?). exists j', d'. split; [lia|done].
      * intros (j' & d' & Hj' & Hc & Ho). exists j', d'. split; [|done].
        destruct (decide (j' = j)) as [->|]; [|lia]. congruence.
Qed.

Lemma offset_taken_all (s : state) (i : Z) :
  Z.of_nat (length (data s)) = MAX_TOTAL_PAGES →
  ∃ b, offset_taken (Z.to_nat MAX_TOTAL_PAGES) 0 i s = Ok b s ∧
       (b = true ↔ ¬ offset_free s i).
Proof.
  intros Hlen.
  destruct (offset_taken_spec s i (Z.to_nat MAX_TOTAL_PAGES) 0) as (b & Hb & Hiff);
    [done|unfold MAX_TOTAL_PAGES in *; lia|].
  exists b. split; [done|]. rewrite Hiff. unfold offset_free. split.
  - intros (j & d & _ & Hc & Ho) Hfree. apply cell_lookup in Hc as [_ Hc].
    apply (Hfree d); [|done]. by eapply list_elem_of_lookup_2.
  - intros Hn. destruct (decide (Exists (λ d, offset d = i) (data s))) as [He|He].
    + apply Exists_exists in He as (d & Hd & Ho).
      apply list_elem_of_lookup_1 in Hd as [k Hk].
      exists (Z.of_nat k), d. apply lookup_lt_Some in Hk as Hlt.
      split; [unfold MAX_TOTAL_PAGES in *; lia|]. split; [|done].
      unfold cell. rewrite decide_True by lia. by rewrite Nat2Z.id.
    + exfalso. apply Hn. intros d Hd Ho. apply He, Exists_exists. by exists d.
Qed.

(** The pigeonhole step: when the first [k] page-aligned offsets are all
    taken, [k] is at most the number of [PageMeta] entries. *)
Lemma taken_prefix_bounded (s : state) (k : Z) :
  0 ≤ k → (∀ k', 0 ≤ k' < k → ¬ offset_free s (k' * PGSIZE)) →
  k ≤ Z.of_nat (length (data s)).
Proof.
  intros Hk Htaken.
  assert (Hsub : (λ k', k' * PGSIZE) <$> seqZ 0 k ⊆+ offset <$> data s).
  { apply NoDup_submseteq.
    - apply NoDup_fmap_2; [|apply NoDup_seqZ]. intros x y. unfold PGSIZE. lia.
    - intros x Hx. apply list_elem_of_fmap in Hx as (k' & -> & Hk').
      apply elem_of_seqZ in Hk'.
      destruct (decide (Exists (λ d, offset d = k' * PGSIZE) (data s))) as [He|He].
      + apply Exists_exists in He as (d & Hd & Ho). rewrite <- Ho.
        by apply list_elem_of_fmap_2.
      + exfalso. apply (Htaken k'); [lia|]. intros d Hd Ho.
        apply He, Exists_exists. by exists d. }
  apply submseteq_length in Hsub. rewrite !length_fmap, length_seqZ in Hsub. lia.
Qed.

Lemma getOffset_loop_spec (s : state) (fuel : nat) (k : Z) :
  Z.of_nat (length (data s)) = MAX_TOTAL_PAGES →
  0 ≤ k → MAX_TOTAL_PAGES + 1 ≤ k + Z.of_nat fuel →
  (∀ k', 0 ≤ k' < k → ¬ offset_free s (k' * PGSIZE)) →
  (∃ i, getOffset_loop fuel (k * PGSIZE) s = Ok i s ∧ swap_slot s i ∧ offset_free s i ∧
        ∀ i', swap_slot s i' → offset_free s i' → i ≤ i') ∨
  (getOffset_loop fuel (k * PGSIZE) s = Ok 0 s ∧ ∀ i, swap_slot s i → ¬ offset_free s i).
Proof.
  intros Hlen. revert k. induction fuel as [|fuel IH]; intros k Hk Hfuel Htaken.
  - pose proof (taken_prefix_bounded s k Hk Htaken). lia.
  - assert (Hbelow : ∀ i, swap_slot s i → i < k * PGSIZE → ¬ offset_free s i).
    { intros i [Hi Hmod] Hlt. replace i with (i / PGSIZE * PGSIZE).
      - apply Htaken. unfold PGSIZE in *. split; [apply Z.div_pos; lia|].
        apply Z.div_lt_upper_bound; lia.
      - unfold PGSIZE in *. pose proof (Z.div_mod i 4096). lia. }
    remember (getOffset_loop (S fuel) (k * PGSIZE) s) as R eqn:HR.
    cbn [getOffset_loop] in HR. rewrite (bind_Ok _ _ s s (sz s)) in HR by done.
    destruct (decide (k * PGSIZE < sz s)) as [Hlt|Hge].
    + destruct (offset_taken_all s (k * PGSIZE) Hlen) as (b & Hb & Hiff).
      rewrite (bind_Ok _ _ s s b) in HR by done.
      pose proof (taken_prefix_bounded s k Hk Htaken) as Hbound.
      destruct b.
      * assert (Hint : int_of (k * PGSIZE + PGSIZE) s = Ok ((k + 1) * PGSIZE) s).
        { unfold int_of. rewrite decide_True.
          - unfold mret, M_ret. f_equal. lia.
          - unfold INT_MIN, INT_MAX, PGSIZE, MAX_TOTAL_PAGES in *. lia. }
        rewrite (bind_Ok _ _ s s _ Hint) in HR. subst R.
        apply (IH (k + 1)); [lia|lia|].
        intros k' Hk'. destruct (decide (k' = k)) as [->|]; [by apply Hiff|apply Htaken; lia].
      * left. exists (k * PGSIZE). subst R. unfold mret, M_ret.
        assert (Hfree : offset_free s (k * PGSIZE)).
        { destruct (decide (Forall (λ d, offset d ≠ k * PGSIZE) (data s))) as [Hf|Hf].
          - intros d Hd. by eapply Forall_forall in Hf.
          - exfalso. assert (false = true); [|done]. apply Hiff. intros Hfree.
            apply Hf, Forall_forall. done. }
        split.
        { f_equal. unfold u32. apply Z.mod_small.
          unfold PGSIZE, MAX_TOTAL_PAGES in *. lia. }
        split; [split; [unfold PGSIZE in *; lia|apply Z_mod_mult]|].
        split; [done|].
        intros i' Hslot Hfree'. destruct (decide (i' < k * PGSIZE)); [|lia].
        exfalso. by apply (Hbelow i').
    + right. subst R. split; [done|]. intros i Hslot. apply Hbelow; [done|].
      destruct Hslot as [? _]. lia.
Qed.

(** C8 as amended: when some page-aligned offset of [[0, process_size)]
    differs from the offset of every [PageMeta] entry, [getOffset] returns
    the smallest one; when there is none it returns 0. *)
Theorem getOffset_first_free_or_zero (s : state) :
  Z.of_nat (length (data s)) = MAX_TOTAL_PAGES →
  (∃ i, getOffset s = Ok i s ∧ swap_slot s i ∧ offset_free s i ∧
        ∀ i', swap_slot s i' → offset_free s i' → i ≤ i') ∨
  (getOffset s = Ok 0 s ∧ ∀ i, swap_slot s i → ¬ offset_free s i).
Proof.
  intros Hlen. unfold getOffset.
  apply (getOffset_loop_spec s _ 0 Hlen); [lia|unfold MAX_TOTAL_PAGES; lia|].
  intros k' Hk'. lia.
Qed.

Lemma getOffset_first_free_or_zero_witness :
  Z.of_nat (length (data one_page_on_disk)) = MAX_TOTAL_PAGES ∧
  ((∃ i, getOffset one_page_on_disk = Ok i one_page_on_disk ∧ swap_slot one_page_on_disk i ∧
         offset_free one_page_on_disk i ∧
         ∀ i', swap_slot one_page_on_disk i' → offset_free one_page_on_disk i' → i ≤ i') ∨
   (getOffset one_page_on_disk = Ok 0 one_page_on_disk ∧
    ∀ i, swap_slot one_page_on_disk i → ¬ offset_free one_page_on_disk i)).
Proof.
  split; [reflexivity|]. apply (getOffset_first_free_or_zero one_page_on_disk). reflexivity.
Defined.

(** C8 as stated fails: in a one-page process whose page is on disk at
    offset 0, [getOffset] returns 0, the slot that page occupies. *)
Lemma getOffset_returns_taken_slot :
  getOffset one_page_on_disk = Ok 0 one_page_on_disk ∧
  ¬ offset_free one_page_on_disk 0 ∧
  ¬ (∃ i, swap_slot one_page_on_disk i ∧ offset_free one_page_on_disk i).
Proof.
  split; [reflexivity|].
  assert (Htaken : ¬ offset_free one_page_on_disk 0).
  { intros Hfree. apply (Hfree (mkPageData false 0 0)); [|done].
    apply list_elem_of_here. }
  split; [done|].
  intros (i & [Hi Hmod] & Hfree).
  change (sz one_page_on_disk) with 4096 in Hi. change PGSIZE with 4096 in Hmod.
  rewrite Z.mod_small in Hmod by done. subst i. by apply Htaken.
Qed.

(** ** The resident queue *)

Ltac lia_mod := Z.to_euclidean_division_equations; lia.

Ltac munfold :=
  repeat progress
    (unfold mbind, M_bind, mret, M_ret, gets, modify, when_, panic, undef, out_of_fuel;
     cbv beta iota).

Lemma out_Ok (s : state) : out s = Ok tt (out_state s).
Proof.
  unfold out, out_state. munfold.
  by destruct (decide (head s = MAX_TOTAL_PAGES - 1)).
Qed.

Lemma in_Ok (page : Z) (s : state) :
  is_Some (cell (pages s) (next_tail s)) → in_ page s = Ok tt (in_state page s).
Proof.
  intros [x Hx]. unfold in_, in_state, next_tail in *.
  unfold store_pages. munfold.
  destruct (decide (tail s = MAX_TOTAL_PAGES - 1)) as [e|ne].
  - rewrite (bool_decide_eq_true_2 _ e). cbv beta iota. cbn [tail set_tail pages].
    by rewrite Hx.
  - rewrite (bool_decide_eq_false_2 _ ne). cbv beta iota. cbn [tail set_tail pages].
    by rewrite Hx.
Qed.

Lemma in_not_Ok (page : Z) (s : state) :
  cell (pages s) (next_tail s) = None → in_ page s = Undef.
Proof.
  intros Hx. unfold in_, next_tail in *.
  unfold store_pages. munfold.
  destruct (decide (tail s = MAX_TOTAL_PAGES - 1)) as [e|ne].
  - rewrite (bool_decide_eq_true_2 _ e). cbv beta iota. cbn [tail set_tail pages].
    by rewrite Hx.
  - rewrite (bool_decide_eq_false_2 _ ne). cbv beta iota. cbn [tail set_tail pages].
    by rewrite Hx.
Qed.

Lemma slot_shift (pg : list Z) (h k : Z) :
  slot pg ((h + 1) mod MAX_TOTAL_PAGES) k = slot pg h (1 + k).
Proof.
  unfold slot. f_equal. f_equal. unfold MAX_TOTAL_PAGES.
  rewrite Z.add_mod_idemp_l by done. f_equal. lia.
Qed.

Lemma ring_cons (pg : list Z) (h n : Z) :
  0 < n → ring pg h n = slot pg h 0 :: ring pg ((h + 1) mod MAX_TOTAL_PAGES) (n - 1).
Proof.
  intros Hn. unfold ring. rewrite (seqZ_cons 0 n) by done. cbn [fmap list_fmap]. f_equal.
  replace (Z.succ 0) with (1 + 0) by lia. rewrite <- fmap_add_seqZ, <- list_fmap_compose.
  replace (Z.pred n) with (n - 1) by lia.
  apply list_fmap_ext. intros j k _. simpl. by rewrite slot_shift.
Qed.

Lemma ring_snoc (pg : list Z) (h n x : Z) :
  Z.of_nat (length pg) = MAX_TOTAL_PAGES → 0 ≤ n < MAX_TOTAL_PAGES →
  ring (<[Z.to_nat ((h + n) mod MAX_TOTAL_PAGES) := x]> pg) h (n + 1) = ring pg h n ++ [x].
Proof.
  intros Hlen Hn. unfold ring. rewrite seqZ_app by lia. rewrite fmap_app. f_equal.
  - apply list_fmap_ext. intros j k Hk. apply lookup_seqZ in Hk as [-> Hk].
    unfold slot, cell. unfold MAX_TOTAL_PAGES in *.
    rewrite !decide_True by lia_mod.
    rewrite list_lookup_insert_ne; [done|]. lia_mod.
  - rewrite (seqZ_cons (0 + n) 1) by lia. simpl. f_equal.
    unfold slot, cell. unfold MAX_TOTAL_PAGES in *. replace (0 + n) with n by lia.
    rewrite decide_True by lia_mod.
    rewrite list_lookup_insert_eq; [done|]. lia_mod.
Qed.

Lemma queue_out (s : state) :
  queue_wf s → 0 < numOfPages s →
  ∃ x, load_pages (head s) s = Ok x s ∧ queue s = x :: queue (out_state s) ∧
       queue_wf (out_state s).
Proof.
  intros (Hlen & Hh & Ht & Hn & Heq) Hpos.
  destruct (cell_Some (pages s) (head s)) as [x Hx]; [lia|].
  exists x. split; [unfold load_pages; by rewrite Hx|]. split.
  - unfold queue. rewrite ring_cons by done. f_equal.
    + unfold slot. rewrite Z.add_0_r, Z.mod_small by done. by rewrite Hx.
    + unfold out_state. simpl. f_equal. unfold MAX_TOTAL_PAGES in *.
      destruct (decide (head s = 32 - 1)); lia_mod.
  - unfold queue_wf, out_state. simpl. unfold MAX_TOTAL_PAGES in *.
    destruct (decide (head s = 32 - 1)); repeat split; try lia; lia_mod.
Qed.

Lemma next_tail_wf (s : state) :
  queue_wf s → next_tail s = (head s + numOfPages s) mod MAX_TOTAL_PAGES.
Proof.
  intros (Hlen & Hh & Ht & Hn & Heq). unfold next_tail. unfold MAX_TOTAL_PAGES in *.
  destruct (decide (tail s = 32 - 1)); lia_mod.
Qed.

Lemma queue_in (page : Z) (s : state) :
  queue_wf s → numOfPages s < MAX_TOTAL_PAGES →
  in_ page s = Ok tt (in_state page s) ∧ queue (in_state page s) = queue s ++ [page] ∧
  queue_wf (in_state page s).
Proof.
  intros Hwf Hlt. pose proof (next_tail_wf s Hwf) as Hnt.
  destruct Hwf as (Hlen & Hh & Ht & Hn & Heq). split; [|split].
  - apply in_Ok, cell_Some. rewrite Hnt. unfold MAX_TOTAL_PAGES in *. lia_mod.
  - unfold queue, in_state. simpl. rewrite Hnt. apply ring_snoc; [done|lia].
  - unfold queue_wf, in_state. simpl. rewrite length_insert. rewrite Hnt.
    unfold MAX_TOTAL_PAGES in *. repeat split; try lia; lia_mod.
Qed.

Lemma beside_queue_out (s : state) : beside_queue (out_state s) = beside_queue s.
Proof. reflexivity. Qed.

Lemma beside_queue_in (page : Z) (s : state) : beside_queue (in_state page s) = beside_queue s.
Proof. reflexivity. Qed.

Lemma queue_length (s : state) : 0 ≤ numOfPages s → Z.of_nat (length (queue s)) = numOfPages s.
Proof. intros H. unfold queue, ring. rewrite length_fmap, length_seqZ. lia. Qed.

(** ** removePage *)

Lemma removePage_loop_refines (pageNumber : Z) (fuel : nat) (i : Z) (s : state) :
  queue_wf s → 0 ≤ i → numOfPages s - i ≤ Z.of_nat fuel →
  ∃ s', removePage_loop fuel pageNumber i s = Ok tt s' ∧ queue_wf s' ∧
        queue s' = remove_rounds fuel pageNumber i (queue s) ∧
        beside_queue s' = beside_queue s.
Proof.
  revert i s. induction fuel as [|fuel IH]; intros i s Hwf Hi Hfuel.
  - exists s. cbn [removePage_loop remove_rounds]. munfold.
    rewrite decide_False by lia. done.
  - pose proof Hwf as (_ & _ & _ & Hn & _).
    pose proof (queue_length s ltac:(lia)) as Hlen.
    cbn [removePage_loop remove_rounds]. rewrite (bind_Ok _ _ s s (numOfPages s)) by done.
    rewrite Hlen. destruct (decide (i < numOfPages s)) as [Hlt|Hge].
    + destruct (queue_out s Hwf) as (x & Hload & Hq & Hwf1); [lia|].
      rewrite (bind_Ok _ _ s s (head s)) by done.
      rewrite (bind_Ok _ _ s s x Hload).
      rewrite (bind_Ok _ _ s (out_state s) tt) by apply out_Ok.
      rewrite Hq. unfold when_. destruct (decide (x = pageNumber)) as [Heq|Hne].
      * rewrite bool_decide_eq_false_2 by (intros ?; done).
        rewrite (bind_Ok _ _ (out_state s) (out_state s) tt) by done.
        destruct (IH (i + 1) (out_state s) Hwf1) as (s' & Hs' & Hwf' & Hq' & Hb); [lia| |].
        { unfold out_state. simpl. lia. }
        exists s'. by rewrite Hb.
      * rewrite bool_decide_eq_true_2 by done.
        destruct (queue_in x (out_state s) Hwf1) as (Hin & Hq2 & Hwf2).
        { unfold out_state. simpl. lia. }
        rewrite (bind_Ok _ _ (out_state s) (in_state x (out_state s)) tt Hin).
        destruct (IH (i + 1) (in_state x (out_state s)) Hwf2)
          as (s' & Hs' & Hwf' & Hq' & Hb); [lia| |].
        { unfold in_state, out_state. simpl. lia. }
        exists s'. rewrite <- Hq2. by rewrite Hb.
    + exists s. done.
Qed.

Lemma removePage_refines (pageNumber : Z) (s : state) :
  queue_wf s →
  ∃ s', removePage pageNumber s = Ok tt s' ∧ queue_wf s' ∧
        queue s' = remove_rounds (length (queue s)) pageNumber 0 (queue s) ∧
        beside_queue s' = beside_queue s.
Proof.
  intros Hwf. pose proof Hwf as (_ & _ & _ & Hn & _).
  unfold removePage. rewrite (bind_Ok _ _ s s (numOfPages s)) by done.
  replace (length (queue s)) with (Z.to_nat (numOfPages s))
    by (pose proof (queue_length s); lia).
  apply removePage_loop_refines; [done|lia|lia].
Qed.

(** Rounds that meet no entry equal to [pageNumber] rotate the queue. *)
Lemma remove_rounds_rotate (pn : Z) (m r : list Z) (fuel : nat) (i : Z) :
  pn ∉ m → i ≤ Z.of_nat (length r) →
  remove_rounds (length m + fuel) pn i (m ++ r) =
  remove_rounds fuel pn (i + Z.of_nat (length m)) (r ++ m).
Proof.
  revert r i. induction m as [|x m IH]; intros r i Hm Hi.
  - simpl. rewrite app_nil_r. f_equal. lia.
  - apply not_elem_of_cons in Hm as [Hx Hm].
    cbn [length Nat.add app remove_rounds].
    rewrite decide_True by (rewrite length_app; lia).
    rewrite decide_False by done.
    rewrite <- app_assoc. rewrite (IH (r ++ [x]) (i + 1) Hm) by (rewrite length_app; simpl; lia).
    rewrite <- app_assoc. simpl. f_equal. lia.
Qed.

Lemma remove_rounds_done (pn : Z) (fuel : nat) (i : Z) (q : list Z) :
  Z.of_nat (length q) ≤ i → remove_rounds fuel pn i q = q.
Proof. intros H. destruct fuel; [done|]. simpl. by rewrite decide_False by lia. Qed.

(** [pageNumber] is not queued: the queue makes a full turn. *)
Lemma remove_rounds_absent (pn : Z) (q : list Z) :
  pn ∉ q → remove_rounds (length q) pn 0 q = q.
Proof.
  intros H. pose proof (remove_rounds_rotate pn q [] 0 0 H) as Hr.
  rewrite app_nil_r, Nat.add_0_r in Hr. rewrite Hr by (simpl; lia). done.
Qed.

(** [pageNumber] is the last entry: the others keep their order. *)
Lemma remove_rounds_last (pn : Z) (l1 : list Z) :
  pn ∉ l1 → remove_rounds (length (l1 ++ [pn])) pn 0 (l1 ++ [pn]) = l1.
Proof.
  intros H. rewrite length_app. rewrite (remove_rounds_rotate pn l1 [pn] _ 0 H) by (simpl; lia).
  cbn [length Nat.add app remove_rounds].
  rewrite decide_True by lia. rewrite decide_True by done. done.
Qed.

(** [pageNumber] is queued before the last entry [y]: the loop stops one
    round early and [y] is left at the head. *)
Lemma remove_rounds_inner (pn y : Z) (l1 l2 : list Z) :
  pn ∉ l1 → pn ∉ l2 →
  remove_rounds (length (l1 ++ pn :: l2 ++ [y])) pn 0 (l1 ++ pn :: l2 ++ [y]) = y :: l1 ++ l2.
Proof.
  intros H1 H2. rewrite length_app.
  rewrite (remove_rounds_rotate pn l1 _ _ 0 H1) by lia.
  cbn [length app remove_rounds].
  rewrite decide_True by (rewrite !length_app; simpl; lia). rewrite decide_True by done.
  rewrite <- app_assoc. rewrite length_app. cbn [length].
  rewrite (remove_rounds_rotate pn l2 ([y] ++ l1) 1 _ H2) by (simpl; lia).
  rewrite remove_rounds_done; [by rewrite <- app_assoc|].
  rewrite !length_app. simpl. lia.
Qed.

Lemma list_snoc_cases {A : Type} (l : list A) : l = [] ∨ ∃ l' y, l = l' ++ [y].
Proof. induction l as [|y l' _] using rev_ind; [by left|right; by exists l', y]. Qed.

(** With distinct entries the queue after [removePage] holds the other
    entries, each once. *)
Lemma remove_rounds_NoDup (pn : Z) (q : list Z) :
  NoDup q →
  NoDup (remove_rounds (length q) pn 0 q) ∧
  ∀ x, x ∈ remove_rounds (length q) pn 0 q ↔ x ∈ q ∧ x ≠ pn.
Proof.
  intros Hnd. destruct (decide (pn ∈ q)) as [Hin|Hnin].
  - apply list_elem_of_split in Hin as (l1 & r & ->).
    apply NoDup_app in Hnd as (Hnd1 & Hdisj & Hnd2).
    apply NoDup_cons in Hnd2 as [Hr Hnd2].
    assert (H1 : pn ∉ l1) by (intros H; apply (Hdisj pn H); left).
    destruct (list_snoc_cases r) as [->|(l2 & y & ->)].
    + rewrite remove_rounds_last by done. split; [done|].
      intros x. rewrite elem_of_app, list_elem_of_singleton. split.
      * intros Hx. split; [by left|]. by intros ->.
      * intros [[?|?] ?]; done.
    + rewrite remove_rounds_inner; [|done|].
      2: { intros H. apply Hr. apply elem_of_app. by left. }
      apply NoDup_app in Hnd2 as (Hnd2 & Hdisj2 & _).
      assert (y ≠ pn). { intros ->. apply Hr, elem_of_app. right. left. }
      split.
      * apply NoDup_cons. split.
        -- rewrite elem_of_app. intros [Hy|Hy].
           ++ apply (Hdisj y Hy). right. apply elem_of_app. right. left.
           ++ apply (Hdisj2 y Hy). left.
        -- apply NoDup_app. split; [done|]. split; [|done].
           intros x Hx1 Hx2. apply (Hdisj x Hx1). right. apply elem_of_app. by left.
      * intros x. rewrite !elem_of_app, !elem_of_cons, !elem_of_app, !elem_of_cons.
        split.
        -- intros [->|[Hx|Hx]].
           ++ split; [|done]. right. right. right. by left.
           ++ split; [by left|]. by intros ->.
           ++ split; [right; right; by left|]. intros ->. apply Hr, elem_of_app. by left.
        -- intros [[Hx|[->|[Hx|[->|Hx]]]] Hne]; try done.
           ++ right. by left.
           ++ right. by right.
           ++ by left.
           ++ by apply not_elem_of_nil in Hx.
  - rewrite remove_rounds_absent by done. split; [done|].
    intros x. split; [|by intros [? _]]. intros Hx. split; [done|]. by intros ->.
Qed.

(** C5, at the failing input: pages 1, 2, 3 are queued in this order and
    page 1 is removed.  The loop bound shrinks with the queue, the last
    entry is never dequeued, and the queue is left as 3, 2. *)
Theorem removePage_reorders_queue :
  queue (queue_of [1; 2; 3]) = [1; 2; 3] ∧
  ∃ s', removePage 1 (queue_of [1; 2; 3]) = Ok tt s' ∧ queue s' = [3; 2].
Proof. split; [reflexivity|]. eexists. split; reflexivity. Qed.

(** ** Page-table pages *)

Lemma PX_range (level va : Z) : 0 ≤ PX level va < 512.
Proof.
  unfold PX. change 511 with (Z.ones 9). rewrite Z.land_ones by lia.
  apply Z.mod_pos_bound. lia.
Qed.



Lemma page_va_range (i : Z) :
  0 ≤ i < 2 ^ 19 →
  int_of (i * PGSIZE) = mret (i * PGSIZE) ∧ u64 (i * PGSIZE) = i * PGSIZE ∧
  0 ≤ i * PGSIZE < MAXVA.
Proof.
  intros Hi. change (2 ^ 19) with 524288 in Hi. unfold int_of, u64, PGSIZE.
  change MAXVA with 274877906944. split; [|split; [|lia]].
  - rewrite decide_True; [done|]. unfold INT_MIN, INT_MAX. lia.
  - apply Z.mod_small. lia.
Qed.

Lemma walk_noalloc (s : state) (pt va : Z) :
  va < MAXVA → is_Some (ptmem s !! pt) → leaves_wf s →
  walk pt va false s =
  Ok (match pte_at s pt va with Some _ => Some (va_ptr pt va) | None => None end) s.
Proof.
  intros Hva [t2 Ht2] Hwf. unfold walk. rewrite decide_False by lia.
  unfold walk_level. munfold. rewrite Ht2.
  unfold pte_at, lookup_pte, lookup_leaf, va_ptr. cbn [pp_root pp_i2 pp_i1 pp_i0].
  unfold has_l1, has_l0, get_l0.
  destruct (get_l1 s pt (PX 2 va)) as [t1|] eqn:H1.
  - rewrite bool_decide_eq_true_2 by (by eexists). cbn. rewrite H1.
    destruct (t1 !! PX 1 va) as [lf|] eqn:H0.
    + rewrite bool_decide_eq_true_2 by (by eexists). cbn.
      destruct (cell_Some lf (PX 0 va)) as [v Hv].
      { pose proof (PX_range 0 va). rewrite (Hwf pt (PX 2 va) (PX 1 va) lf); [lia|].
        unfold get_l0. by rewrite H1. }
      by rewrite Hv.
    + rewrite bool_decide_eq_false_2 by (intros [? ?]; done). done.
  - rewrite bool_decide_eq_false_2 by (intros [? ?]; done). done.
Qed.

Lemma walk_noalloc_inv (s s' : state) (pt va : Z) (r : option pteptr) :
  walk pt va false s = Ok r s' →
  s' = s ∧ va < MAXVA ∧ (r = None ∨ r = Some (va_ptr pt va)).
Proof.
  unfold walk. destruct (decide (MAXVA ≤ va)); [done|].
  unfold walk_level. munfold. destruct (ptmem s !! pt); [|done].
  destruct (has_l1 pt (PX 2 va) s); cbn.
  - destruct (has_l0 pt (PX 2 va) (PX 1 va) s); cbn; intros [= <- <-];
      (split; [done|]); (split; [lia|]); [by right|by left].
  - intros [= <- <-]. split; [done|]. split; [lia|by left].
Qed.

Lemma load_pte_inv (s s' : state) (pte : option pteptr) (v : Z) :
  load_pte pte s = Ok v s' → s' = s ∧ ∃ r, pte = Some r ∧ lookup_pte s r = Some v.
Proof.
  unfold load_pte. destruct pte as [r|]; [|done].
  destruct (lookup_pte s r) as [v'|] eqn:H; [|done].
  intros [= <- <-]. split; [done|]. by exists r.
Qed.

Lemma load_pte_Ok (s : state) (r : pteptr) (v : Z) :
  lookup_pte s r = Some v → load_pte (Some r) s = Ok v s.
Proof. intros H. unfold load_pte. by rewrite H. Qed.

Lemma store_pte_Ok (s : state) (r : pteptr) (v : Z) :
  is_Some (lookup_pte s r) → store_pte (Some r) v s = Ok tt (poke r v s).
Proof. intros [v' H]. unfold store_pte. by rewrite H. Qed.

Lemma store_pte_inv (s s' : state) (pte : option pteptr) (v : Z) :
  store_pte pte v s = Ok tt s' →
  ∃ r, pte = Some r ∧ is_Some (lookup_pte s r) ∧ s' = poke r v s.
Proof.
  unfold store_pte. destruct pte as [r|]; [|done].
  destruct (lookup_pte s r) as [v'|] eqn:H; [|done].
  intros [= <-]. exists r. split; [done|]. split; [by exists v'|done].
Qed.

Lemma lookup_pte_poke (s : state) (r r' : pteptr) (v : Z) :
  is_Some (lookup_pte s r) →
  lookup_pte (poke r v s) r' = if decide (r' = r) then Some v else lookup_pte s r'.
Proof.
  intros [v0 Hv0]. destruct r as [pt i2 i1 i0], r' as [pt' i2' i1' i0'].
  unfold lookup_pte, lookup_leaf, get_l0, get_l1, poke, update_leaf in *.
  cbn [pp_root pp_i2 pp_i1 pp_i0 ptmem set_ptmem] in *.
  rewrite lookup_alter.
  destruct (decide (pt = pt')) as [<-|Hpt]; [|by rewrite decide_False by congruence].
  destruct (ptmem s !! pt) as [t2|] eqn:Ht2; [|done]. cbn.
  rewrite lookup_alter.
  destruct (decide (i2 = i2')) as [<-|Hi2]; [|by rewrite decide_False by congruence].
  destruct (t2 !! i2) as [t1|] eqn:Ht1; [|done]. cbn.
  rewrite lookup_alter.
  destruct (decide (i1 = i1')) as [<-|Hi1]; [|by rewrite decide_False by congruence].
  destruct (t1 !! i1) as [lf|] eqn:Hlf; [|done]. cbn.
  apply cell_lookup in Hv0 as [Hr Hl].
  unfold cell. destruct (decide (i0' = i0)) as [->|Hi0].
  - rewrite (decide_True (P := _ = _)) by done. rewrite decide_True by lia.
    rewrite list_lookup_insert_eq; [done|lia].
  - rewrite (decide_False (P := _ = _)) by congruence.
    destruct (decide (0 ≤ i0')); [|done].
    rewrite list_lookup_insert_ne; [done|lia].
Qed.

Lemma leaves_wf_poke (s : state) (r : pteptr) (v : Z) :
  leaves_wf s → leaves_wf (poke r v s).
Proof.
  intros Hwf pt i2 i1 lf. destruct r as [rt r2 r1 r0].
  unfold get_l0, get_l1, poke, update_leaf. cbn [pp_root pp_i2 pp_i1 pp_i0 ptmem set_ptmem].
  rewrite lookup_alter. destruct (decide (rt = pt)) as [<-|Hpt].
  - destruct (ptmem s !! rt) as [t2|] eqn:Ht2; [|done]. cbn.
    rewrite lookup_alter. destruct (decide (r2 = i2)) as [<-|Hi2].
    + destruct (t2 !! r2) as [t1|] eqn:Ht1; [|done]. cbn.
      rewrite lookup_alter. destruct (decide (r1 = i1)) as [<-|Hi1].
      * destruct (t1 !! r1) as [lf0|] eqn:Hlf; [|done]. cbn. intros [= <-].
        rewrite length_insert. apply (Hwf rt r2 r1). unfold get_l0, get_l1.
        by rewrite Ht2, Ht1.
      * intros H. apply (Hwf rt r2 i1). unfold get_l0, get_l1. by rewrite Ht2, Ht1.
    + intros H. apply (Hwf rt i2 i1). unfold get_l0, get_l1. by rewrite Ht2.
  - intros H. apply (Hwf pt i2 i1). unfold get_l0, get_l1. done.
Qed.

Lemma roots_poke (s : state) (r : pteptr) (v : Z) (pt : Z) :
  is_Some (ptmem (poke r v s) !! pt) ↔ is_Some (ptmem s !! pt).
Proof. unfold poke, update_leaf. cbn [ptmem set_ptmem]. apply lookup_alter_is_Some. Qed.

(** Writing back the value a slot holds changes nothing. *)
Lemma poke_same (s : state) (r : pteptr) (v : Z) :
  lookup_pte s r = Some v → poke r v s = s.
Proof.
  intros H. destruct s, r as [pt i2 i1 i0].
  unfold poke, update_leaf, lookup_pte, lookup_leaf, get_l0, get_l1, set_ptmem in *.
  cbn [pp_root pp_i2 pp_i1 pp_i0 ptmem pid sz pagetable data pagesInMemory pages head tail
       numOfPages swapFile kmem] in *.
  f_equal. apply alter_id. intros t2 Ht2. rewrite Ht2 in H.
  apply alter_id. intros t1 Ht1. rewrite Ht1 in H.
  apply alter_id. intros lf Hlf. rewrite Hlf in H.
  apply cell_lookup in H as [_ H]. by apply list_insert_id.
Qed.

(** ** Inversion of the primitive steps *)

Lemma gets_inv {A : Type} (f : state → A) (s s' : state) (a : A) :
  gets f s = Ok a s' → a = f s ∧ s' = s.
Proof. by intros [= <- <-]. Qed.

Lemma mret_inv {A : Type} (a b : A) (s s' : state) :
  (mret a : M A) s = Ok b s' → b = a ∧ s' = s.
Proof. by intros [= <- <-]. Qed.

Lemma modify_inv (f : state → state) (s s' : state) (u : unit) :
  modify f s = Ok u s' → s' = f s.
Proof. by intros [= <-]. Qed.

Lemma load_data_inv (i : Z) (s s' : state) (d : pageData) :
  load_data i s = Ok d s' → s' = s ∧ cell (data s) i = Some d.
Proof.
  unfold load_data. destruct (cell (data s) i) as [d'|]; [|done]. by intros [= <- <-].
Qed.

Lemma store_data_inv (i : Z) (f : pageData → pageData) (s s' : state) (u : unit) :
  store_data i f s = Ok u s' →
  ∃ d, cell (data s) i = Some d ∧ s' = set_data (<[Z.to_nat i := f d]> (data s)) s.
Proof.
  unfold store_data. destruct (cell (data s) i) as [d|]; [|done].
  intros [= <-]. by exists d.
Qed.

Lemma store_data_Ok (i : Z) (f : pageData → pageData) (s : state) (d : pageData) :
  cell (data s) i = Some d →
  store_data i f s = Ok tt (set_data (<[Z.to_nat i := f d]> (data s)) s).
Proof. intros H. unfold store_data. by rewrite H. Qed.

Lemma load_pages_inv (i : Z) (s s' : state) (x : Z) :
  load_pages i s = Ok x s' → s' = s ∧ cell (pages s) i = Some x.
Proof.
  unfold load_pages. destruct (cell (pages s) i) as [x'|]; [|done]. by intros [= <- <-].
Qed.

Lemma int_of_inv (x y : Z) (s s' : state) :
  int_of x s = Ok y s' → y = x ∧ s' = s ∧ INT_MIN ≤ x ≤ INT_MAX.
Proof. unfold int_of. destruct (decide _); [|done]. by intros [= <- <-]. Qed.

Lemma kalloc_inv (s s' : state) (pa : Z) :
  kalloc s = Ok pa s' →
  (kmem s = [] ∧ pa = 0 ∧ s' = s) ∨ (∃ fs, kmem s = pa :: fs ∧ s' = set_kmem fs s).
Proof.
  unfold kalloc. destruct (kmem s) as [|f fs] eqn:H; intros [= <- <-]; [by left|right].
  by exists fs.
Qed.

Lemma in_inv (page : Z) (s s' : state) (u : unit) :
  in_ page s = Ok u s' → s' = in_state page s.
Proof.
  destruct (cell (pages s) (next_tail s)) as [x|] eqn:H.
  - rewrite in_Ok by by eexists. by intros [= <-].
  - by rewrite in_not_Ok.
Qed.

(** Inversion of a chain of binds, one step at a time. *)
Ltac bind_inv H a s1 H1 :=
  apply bind_Ok_inv in H as (a & s1 & H1 & H).

(** ** Bits of a PTE *)

Lemma testbit_flag (n k : Z) : 0 ≤ n → Z.testbit (Z.shiftl 1 n) k = bool_decide (k = n).
Proof.
  intros Hn. rewrite Z.shiftl_1_l. rewrite Z.pow2_bits_eqb by done.
  case_bool_decide; [apply Z.eqb_eq|apply Z.eqb_neq]; done.
Qed.

Lemma testbit_clear_bits (x n k : Z) :
  0 ≤ n → 0 ≤ k < 64 →
  Z.testbit (clear_bits x (Z.shiftl 1 n)) k = Z.testbit x k && negb (bool_decide (k = n)).
Proof.
  intros Hn Hk. unfold clear_bits, u64. rewrite Z.land_spec.
  change (2 ^ 64) with (2 ^ 64). rewrite Z.mod_pow2_bits_low by lia.
  rewrite Z.lnot_spec by lia. by rewrite testbit_flag.
Qed.

Lemma testbit_set_flag (x n k : Z) :
  0 ≤ n → Z.testbit (Z.lor x (Z.shiftl 1 n)) k = Z.testbit x k || bool_decide (k = n).
Proof. intros Hn. rewrite Z.lor_spec. by rewrite testbit_flag. Qed.

Lemma land_flag_testbit (x n : Z) :
  0 ≤ n → (Z.land x (Z.shiftl 1 n) ≠ 0 ↔ Z.testbit x n = true).
Proof.
  intros Hn. split.
  - intros H. destruct (Z.testbit x n) eqn:Hb; [done|]. exfalso. apply H.
    apply Z.bits_inj'. intros k Hk. rewrite Z.land_spec, testbit_flag, Z.bits_0 by done.
    case_bool_decide; [subst; by rewrite Hb|apply andb_false_r].
  - intros Hb H. assert (Z.testbit (Z.land x (Z.shiftl 1 n)) n = false)
      by (rewrite H; apply Z.bits_0).
    rewrite Z.land_spec, testbit_flag, Hb in H0 by done.
    by rewrite bool_decide_eq_true_2 in H0.
Qed.


Lemma s32_small (x : Z) : 0 ≤ x < 2 ^ 31 → s32 x = x.
Proof. intros H. unfold s32. rewrite Z.mod_small; lia. Qed.

(** ** The queue operations, on the queue as a list *)

Lemma queue_wf_dec (s : state) :
  (bool_decide (Z.of_nat (length (pages s)) = MAX_TOTAL_PAGES) &&
   bool_decide (0 ≤ head s < MAX_TOTAL_PAGES) &&
   bool_decide (-1 ≤ tail s < MAX_TOTAL_PAGES) &&
   bool_decide (0 ≤ numOfPages s ≤ MAX_TOTAL_PAGES) &&
   bool_decide ((tail s + 1) mod MAX_TOTAL_PAGES = (head s + numOfPages s) mod MAX_TOTAL_PAGES))
  = true → queue_wf s.
Proof.
  rewrite !andb_true_iff, !bool_decide_eq_true. unfold queue_wf. tauto.
Qed.

(** X1: [in(page)] appends [page] to the queued pages, also when [tail]
    wraps around the end of the buffer, and touches nothing but the queue. *)
Theorem in_appends (page : Z) (s : state) :
  queue_wf s → numOfPages s < MAX_TOTAL_PAGES →
  ∃ s', in_ page s = Ok tt s' ∧ queue s' = queue s ++ [page] ∧ queue_wf s' ∧
        beside_queue s' = beside_queue s.
Proof.
  intros Hwf Hlt. destruct (queue_in page s Hwf Hlt) as (H1 & H2 & H3).
  exists (in_state page s). done.
Qed.

Lemma in_appends_witness :
  queue wrapping_queue = [7; 8] ∧
  ∃ s', in_ 9 wrapping_queue = Ok tt s' ∧ queue s' = [7; 8; 9] ∧ tail s' = 0.
Proof.
  split; [reflexivity|].
  assert (Hwf : queue_wf wrapping_queue) by (by apply queue_wf_dec).
  assert (Hlt : numOfPages wrapping_queue < MAX_TOTAL_PAGES) by reflexivity.
  destruct (in_appends 9 wrapping_queue Hwf Hlt) as (s' & Hin & Hq & _).
  exists s'. split; [exact Hin|]. split; [exact Hq|].
  rewrite (in_inv _ _ _ _ Hin). reflexivity.
Defined.

(** X2: [out()] on a non-empty queue drops the entry at [head], the oldest
    one, and touches nothing but the queue. *)
Theorem out_drops_head (s : state) :
  queue_wf s → 0 < numOfPages s →
  ∃ x s', cell (pages s) (head s) = Some x ∧ out s = Ok tt s' ∧
          queue s = x :: queue s' ∧ queue_wf s' ∧ beside_queue s' = beside_queue s.
Proof.
  intros Hwf Hpos. destruct (queue_out s Hwf Hpos) as (x & Hload & Hq & Hwf').
  exists x, (out_state s). apply load_pages_inv in Hload as [_ Hx].
  split; [done|]. split; [apply out_Ok|]. done.
Qed.

Lemma out_drops_head_witness :
  ∃ s', out wrapping_queue = Ok tt s' ∧ queue s' = [8] ∧ head s' = 31.
Proof.
  assert (Hwf : queue_wf wrapping_queue) by (by apply queue_wf_dec).
  assert (Hpos : 0 < numOfPages wrapping_queue) by reflexivity.
  destruct (out_drops_head wrapping_queue Hwf Hpos) as (x & s' & Hx & Hout & Hq & _).
  exists s'. split; [exact Hout|].
  rewrite out_Ok in Hout. injection Hout as <-. split; reflexivity.
Defined.

(** X3: [in(page)] has no check for a full buffer: on a queue of
    [MAX_TOTAL_PAGES] entries it overwrites the slot at [head], so the
    oldest entry is lost, and counts [MAX_TOTAL_PAGES + 1] pages. *)
Theorem in_full_overwrites_oldest (page : Z) (s : state) :
  queue_wf s → numOfPages s = MAX_TOTAL_PAGES →
  ∃ s', in_ page s = Ok tt s' ∧ cell (pages s') (head s') = Some page ∧
        head s' = head s ∧ numOfPages s' = MAX_TOTAL_PAGES + 1.
Proof.
  intros Hwf Hn. pose proof (next_tail_wf s Hwf) as Hnt.
  destruct Hwf as (Hlen & Hh & Ht & _ & Heq).
  assert (Hnt' : next_tail s = head s).
  { rewrite Hnt, Hn. unfold MAX_TOTAL_PAGES in *. lia_mod. }
  exists (in_state page s). split.
  - apply in_Ok. rewrite Hnt'. apply cell_Some. lia.
  - unfold in_state. cbn [pages head numOfPages set_numOfPages set_pages set_tail].
    rewrite Hnt'. split; [|split; [done|lia]].
    unfold cell. rewrite decide_True by lia. apply list_lookup_insert_eq. lia.
Qed.

Lemma in_full_overwrites_oldest_witness :
  queue full_queue = seqZ 0 32 ∧
  ∃ s', in_ 99 full_queue = Ok tt s' ∧ cell (pages s') (head s') = Some 99 ∧
        numOfPages s' = 33.
Proof.
  split; [reflexivity|].
  assert (Hwf : queue_wf full_queue) by (by apply queue_wf_dec).
  destruct (in_full_overwrites_oldest 99 full_queue Hwf eq_refl) as (s' & H1 & H2 & _ & H4).
  exists s'. split; [exact H1|]. split; [exact H2|exact H4].
Defined.

(** X4: [removePage] of a page that is not queued turns the queue once
    around: the queued pages and their order are as before, and nothing but
    the queue is touched. *)
Theorem removePage_absent (pageNumber : Z) (s : state) :
  queue_wf s → pageNumber ∉ queue s →
  ∃ s', removePage pageNumber s = Ok tt s' ∧ queue s' = queue s ∧ queue_wf s' ∧
        beside_queue s' = beside_queue s.
Proof.
  intros Hwf Hnin. destruct (removePage_refines pageNumber s Hwf) as (s' & H1 & H2 & H3 & H4).
  exists s'. rewrite remove_rounds_absent in H3 by done. done.
Qed.

Lemma removePage_absent_witness :
  ∃ s', removePage 5 wrapping_queue = Ok tt s' ∧ queue s' = [7; 8].
Proof.
  assert (Hwf : queue_wf wrapping_queue) by (by apply queue_wf_dec).
  assert (Hnin : 5 ∉ queue wrapping_queue).
  { change (queue wrapping_queue) with [7; 8]. intros H.
    apply elem_of_cons in H as [H|H]; [discriminate|].
    apply elem_of_cons in H as [H|H]; [discriminate|]. by apply not_elem_of_nil in H. }
  destruct (removePage_absent 5 wrapping_queue Hwf Hnin) as (s' & H1 & H2 & _).
  exists s'. split; [exact H1|exact H2].
Defined.

(** X5: on a queue of distinct pages [removePage] leaves exactly the other
    pages queued, each once, and touches nothing but the queue. *)
Theorem removePage_keeps_others (pageNumber : Z) (s : state) :
  queue_wf s → NoDup (queue s) →
  ∃ s', removePage pageNumber s = Ok tt s' ∧ queue_wf s' ∧ NoDup (queue s') ∧
        (∀ x, x ∈ queue s' ↔ x ∈ queue s ∧ x ≠ pageNumber) ∧
        beside_queue s' = beside_queue s.
Proof.
  intros Hwf Hnd. destruct (removePage_refines pageNumber s Hwf) as (s' & H1 & H2 & H3 & H4).
  destruct (remove_rounds_NoDup pageNumber (queue s) Hnd) as [Hnd' Hmem].
  exists s'. rewrite <- H3 in Hnd', Hmem. done.
Qed.

Lemma removePage_keeps_others_witness :
  ∃ s', removePage 7 wrapping_queue = Ok tt s' ∧ NoDup (queue s') ∧
        (∀ x, x ∈ queue s' ↔ x ∈ queue wrapping_queue ∧ x ≠ 7).
Proof.
  assert (Hwf : queue_wf wrapping_queue) by (by apply queue_wf_dec).
  assert (Hnd : NoDup (queue wrapping_queue)).
  { change (queue wrapping_queue) with [7; 8]. apply NoDup_cons. split.
    - intros H. apply elem_of_cons in H as [H|H]; [discriminate|].
      by apply not_elem_of_nil in H.
    - apply NoDup_singleton. }
  destruct (removePage_keeps_others 7 wrapping_queue Hwf Hnd) as (s' & H1 & _ & H3 & H4 & _).
  exists s'. split; [exact H1|]. split; [exact H3|exact H4].
Defined.

(** X6: when the removed page is queued before the last entry, the loop of
    [removePage] ends one round early: the last entry [y] is left at the
    head, in front of the pages that were queued before it. *)
Theorem removePage_moves_last_to_head (pageNumber y : Z) (l1 l2 : list Z) (s : state) :
  queue_wf s → queue s = l1 ++ pageNumber :: l2 ++ [y] →
  pageNumber ∉ l1 → pageNumber ∉ l2 →
  ∃ s', removePage pageNumber s = Ok tt s' ∧ queue s' = y :: l1 ++ l2 ∧ queue_wf s'.
Proof.
  intros Hwf Hq H1 H2.
  destruct (removePage_refines pageNumber s Hwf) as (s' & Hr & Hwf' & Hq' & _).
  exists s'. rewrite Hq in Hq'. rewrite remove_rounds_inner in Hq' by done. done.
Qed.

Lemma removePage_moves_last_to_head_witness :
  ∃ s', removePage 2 (queue_of [1; 2; 3; 4]) = Ok tt s' ∧ queue s' = [4; 1; 3].
Proof.
  assert (Hwf : queue_wf (queue_of [1; 2; 3; 4])) by (by apply queue_wf_dec).
  assert (H1 : 2 ∉ [1]).
  { intros H. apply elem_of_cons in H as [H|H]; [discriminate|].
    by apply not_elem_of_nil in H. }
  assert (H2 : 2 ∉ [3]).
  { intros H. apply elem_of_cons in H as [H|H]; [discriminate|].
    by apply not_elem_of_nil in H. }
  destruct (removePage_moves_last_to_head 2 4 [1] [3] (queue_of [1; 2; 3; 4]) Hwf eq_refl H1 H2)
    as (s' & Hr & Hq & _).
  exists s'. split; [exact Hr|exact Hq].
Defined.

(** X7: when the removed page is the last entry of a queue that holds it
    once, the other pages keep their order. *)
Theorem removePage_of_last_keeps_order (pageNumber : Z) (l1 : list Z) (s : state) :
  queue_wf s → queue s = l1 ++ [pageNumber] → pageNumber ∉ l1 →
  ∃ s', removePage pageNumber s = Ok tt s' ∧ queue s' = l1 ∧ queue_wf s'.
Proof.
  intros Hwf Hq H1.
  destruct (removePage_refines pageNumber s Hwf) as (s' & Hr & Hwf' & Hq' & _).
  exists s'. rewrite Hq in Hq'. rewrite remove_rounds_last in Hq' by done. done.
Qed.

Lemma removePage_of_last_keeps_order_witness :
  ∃ s', removePage 3 (queue_of [1; 2; 3]) = Ok tt s' ∧ queue s' = [1; 2].
Proof.
  assert (Hwf : queue_wf (queue_of [1; 2; 3])) by (by apply queue_wf_dec).
  assert (H1 : 3 ∉ [1; 2]).
  { intros H. apply elem_of_cons in H as [H|H]; [discriminate|].
    apply elem_of_cons in H as [H|H]; [discriminate|]. by apply not_elem_of_nil in H. }
  destruct (removePage_of_last_keeps_order 3 [1; 2] (queue_of [1; 2; 3]) Hwf eq_refl H1)
    as (s' & Hr & Hq & _).
  exists s'. split; [exact Hr|exact Hq].
Defined.

(** ** More on NFUA *)

(** X8: when some resident page of index 3 or more has an aging counter
    below [2^31], [nfua] returns the resident page of index 3 or more with
    the smallest counter, the lowest index among equals, and changes
    nothing. *)
Theorem nfua_returns_victim (s : state) (j cj : Z) :
  Z.of_nat (length (data s)) = MAX_TOTAL_PAGES →
  3 ≤ j < MAX_TOTAL_PAGES → counter_at s j = Some cj → cj < 2 ^ 31 →
  ∃ v, nfua s = Ok v s ∧ nfua_victim s v.
Proof. apply nfua_below_bound. Qed.

Lemma nfua_returns_victim_witness :
  nfua aging_example = Ok 3 aging_example ∧ nfua_victim aging_example 3.
Proof.
  assert (Hlen : Z.of_nat (length (data aging_example)) = MAX_TOTAL_PAGES) by reflexivity.
  assert (Hj : 3 ≤ 5 < MAX_TOTAL_PAGES) by (unfold MAX_TOTAL_PAGES; lia).
  assert (Hc : counter_at aging_example 5 = Some 7) by reflexivity.
  assert (Hlt : 7 < 2 ^ 31) by reflexivity.
  destruct (nfua_returns_victim aging_example 5 7 Hlen Hj Hc Hlt) as (v & Hv & Hvic).
  assert (v = 3) as -> by (injection Hv as ->; reflexivity).
  split; [exact Hv|exact Hvic].
Defined.

(** X9: [nfua] changes nothing and returns either -1 or the index, between
    3 and [MAX_TOTAL_PAGES - 1], of a resident page: never one of the pages
    0, 1, 2 and never a page that is not in memory. *)
Theorem nfua_index_resident (s : state) :
  Z.of_nat (length (data s)) = MAX_TOTAL_PAGES →
  ∃ r, nfua s = Ok r s ∧
       (r = -1 ∨ (3 ≤ r < MAX_TOTAL_PAGES ∧ ∃ c, counter_at s r = Some c ∧ c < 2 ^ 31)).
Proof.
  intros Hlen. destruct (nfua_result s Hlen) as (min & r & Hr & _ & Hidx).
  exists r. split; [done|].
  destruct Hidx as [[-> _]|(Hrange & Hmin & Hc & _)]; [by left|right].
  split; [done|]. by exists min.
Qed.

Lemma nfua_index_resident_witness :
  ∃ r, nfua aging_example = Ok r aging_example ∧
       (r = -1 ∨ (3 ≤ r < MAX_TOTAL_PAGES ∧ ∃ c, counter_at aging_example r = Some c ∧ c < 2 ^ 31)).
Proof. apply (nfua_index_resident aging_example). reflexivity. Defined.

(** ** The PTE format *)

Lemma shiftr_small (x n : Z) : 0 ≤ x < 2 ^ n → 0 ≤ n → Z.shiftr x n = 0.
Proof. intros Hx Hn. rewrite Z.shiftr_div_pow2 by done. apply Z.div_small. lia. Qed.

(** A PTE built by [PA2PTE(pa) | flags] from a page-aligned physical
    address below [2^56] and ten flag bits gives both back: [PTE2PA] is
    [pa] and [PTE_FLAGS] is [flags]. *)
Theorem pte_encode_decode (pa flags : Z) :
  0 ≤ pa < 2 ^ 56 → pa mod PGSIZE = 0 → 0 ≤ flags < 1024 →
  PTE2PA (Z.lor (PA2PTE pa) flags) = pa ∧ PTE_FLAGS (Z.lor (PA2PTE pa) flags) = flags.
Proof.
  intros Hpa Hal Hfl. unfold PGSIZE in Hal.
  assert (Hq : pa = 4096 * (pa / 4096)) by lia_mod.
  set (q := pa / 4096) in *.
  assert (Hqr : 0 ≤ q < 2 ^ 44).
  { change (2 ^ 56) with (4096 * 2 ^ 44) in Hpa. lia. }
  assert (Hs : Z.shiftr pa 12 = q).
  { rewrite Z.shiftr_div_pow2 by lia. change (2 ^ 12) with 4096. rewrite Hq.
    rewrite Z.mul_comm, Z.div_mul by lia. done. }
  assert (Hp : PA2PTE pa = Z.shiftl q 10).
  { unfold PA2PTE, u64. rewrite Hs. apply Z.mod_small. rewrite Z.shiftl_mul_pow2 by lia.
    change (2 ^ 10) with 1024. change (2 ^ 44) with 17592186044416 in Hqr. lia. }
  rewrite Hp. split.
  - unfold PTE2PA, u64. rewrite Z.shiftr_lor, Z.shiftr_shiftl_l by lia.
    rewrite (shiftr_small flags 10) by (change (2 ^ 10) with 1024; lia).
    rewrite Z.sub_diag, Z.shiftl_0_r, Z.lor_0_r. rewrite Z.shiftl_mul_pow2 by lia.
    change (2 ^ 12) with 4096. rewrite Z.mod_small; [lia|].
    change (2 ^ 44) with 17592186044416 in Hqr. lia.
  - unfold PTE_FLAGS. change 1023 with (Z.ones 10). rewrite Z.land_lor_distr_l.
    rewrite !Z.land_ones by lia. rewrite Z.shiftl_mul_pow2 by lia.
    rewrite Z.mod_mul by lia. rewrite Z.lor_0_l. apply Z.mod_small.
    change (2 ^ 10) with 1024. lia.
Qed.

Lemma pte_encode_decode_witness :
  PTE2PA (Z.lor (PA2PTE 2147487744) 31) = 2147487744 ∧
  PTE_FLAGS (Z.lor (PA2PTE 2147487744) 31) = 31.
Proof.
  apply (pte_encode_decode 2147487744 31).
  - split; [discriminate|reflexivity].
  - reflexivity.
  - split; [discriminate|reflexivity].
Defined.

(** ** walk, mappages, walkaddr *)

Lemma pte_at_levels (s : state) (pt va v : Z) :
  pte_at s pt va = Some v →
  is_Some (ptmem s !! pt) ∧ has_l1 pt (PX 2 va) s = true ∧
  has_l0 pt (PX 2 va) (PX 1 va) s = true.
Proof.
  unfold pte_at, lookup_pte, lookup_leaf, va_ptr, has_l1, has_l0, get_l0, get_l1.
  cbn [pp_root pp_i2 pp_i1 pp_i0].
  destruct (ptmem s !! pt) as [t2|]; [|done].
  destruct (t2 !! PX 2 va) as [t1|]; [|done].
  destruct (t1 !! PX 1 va) as [lf|]; [|done].
  intros _. split; [by eexists|]. split; apply bool_decide_eq_true_2; by eexists.
Qed.

(** A slot that exists is reached whatever [alloc] is, with no allocation. *)
Lemma walk_present (s : state) (pt va v : Z) (alloc : bool) :
  va < MAXVA → pte_at s pt va = Some v →
  walk pt va alloc s = Ok (Some (va_ptr pt va)) s.
Proof.
  intros Hva Hv. destruct (pte_at_levels s pt va v Hv) as ([t2 Ht2] & H1 & H0).
  unfold walk. rewrite decide_False by lia. unfold walk_level. munfold.
  rewrite Ht2, H1. cbn. by rewrite H0.
Qed.

Lemma walk_inv_ptr (s s1 : state) (pt va : Z) (alloc : bool) (r : pteptr) :
  walk pt va alloc s = Ok (Some r) s1 → r = va_ptr pt va ∧ va < MAXVA.
Proof.
  unfold walk. destruct (decide (MAXVA ≤ va)); [done|].
  intros H. split; [|lia]. revert H.
  unfold walk_level. munfold. destruct (ptmem s !! pt); [|done].
  destruct (has_l1 pt (PX 2 va) s); cbn.
  - destruct (has_l0 pt (PX 2 va) (PX 1 va) s); cbn.
    + by intros [= <- _].
    + destruct alloc; cbn; [|done]. unfold kalloc. destruct (kmem s); cbn; [done|].
      destruct (decide _); cbn; [done|]. by intros [= <- _].
  - destruct alloc; cbn; [|done]. unfold kalloc. destruct (kmem s) as [|f fs]; cbn; [done|].
    destruct (decide (f = 0)); cbn; [done|].
    destruct (has_l0 _ _ _ _); cbn; [by intros [= <- _]|].
    destruct fs as [|f' fs]; cbn; [done|]. destruct (decide (f' = 0)); cbn; [done|].
    by intros [= <- _].
Qed.

Lemma u64_lnot_page_mask : u64 (Z.lnot (PGSIZE - 1)) = 2 ^ 64 - 4096.
Proof. reflexivity. Qed.

Lemma PGROUNDDOWN_spec (a : Z) : 0 ≤ a < 2 ^ 64 → PGROUNDDOWN a = PGSIZE * (a / PGSIZE).
Proof.
  intros Ha. unfold PGROUNDDOWN. rewrite u64_lnot_page_mask. unfold PGSIZE.
  replace (4096 * (a / 4096)) with (Z.shiftl (Z.shiftr a 12) 12)
    by (rewrite Z.shiftl_mul_pow2, Z.shiftr_div_pow2 by lia; change (2 ^ 12) with 4096; lia).
  apply Z.bits_inj'. intros k Hk. rewrite Z.land_spec.
  destruct (decide (k < 12)) as [Hlt|Hge].
  - rewrite Z.shiftl_spec_low by done.
    replace (Z.testbit (2 ^ 64 - 4096) k) with false; [apply andb_false_r|].
    symmetry. change (2 ^ 64 - 4096) with (Z.shiftl (2 ^ 52 - 1) 12).
    by apply Z.shiftl_spec_low.
  - rewrite Z.shiftl_spec by done. rewrite Z.shiftr_spec by lia.
    replace (k - 12 + 12) with k by lia.
    destruct (decide (k < 64)) as [Hlt|Hge'].
    + replace (Z.testbit (2 ^ 64 - 4096) k) with true; [apply andb_true_r|].
      symmetry. change (2 ^ 64 - 4096) with (Z.shiftl (Z.ones 52) 12).
      rewrite Z.shiftl_spec by done. apply Z.ones_spec_low. lia.
    + replace (Z.testbit a k) with false; [done|]. symmetry.
      destruct (decide (a = 0)) as [->|]; [apply Z.bits_0|].
      apply Z.bits_above_log2; [lia|]. apply Z.log2_lt_pow2; [lia|].
      apply Z.lt_le_trans with (2 ^ 64); [lia|]. apply Z.pow_le_mono_r; lia.
Qed.

Lemma PGROUNDDOWN_aligned (a : Z) :
  0 ≤ a < 2 ^ 64 → a mod PGSIZE = 0 → PGROUNDDOWN a = a.
Proof. intros Ha Hal. rewrite PGROUNDDOWN_spec by done. unfold PGSIZE in *. lia_mod. Qed.

(** [mappages] of one page at a page-aligned address, step by step. *)
Lemma mappages_one (s : state) (pt va pa perm : Z) :
  0 ≤ va < MAXVA → va mod PGSIZE = 0 →
  mappages pt va PGSIZE pa perm s =
  match walk pt va true s with
  | Ok None s1 => Ok (-1) s1
  | Ok (Some r) s1 =>
      match lookup_pte s1 r with
      | Some v =>
          if decide (Z.land v PTE_V ≠ 0) then Panic "remap"
          else Ok 0 (poke r (Z.lor (Z.lor (PA2PTE pa) perm) PTE_V) s1)
      | None => Undef
      end
  | Panic msg => Panic msg
  | Undef => Undef
  | OutOfFuel => OutOfFuel
  end.
Proof.
  intros Hva Hal. change MAXVA with 274877906944 in Hva.
  assert (Ha : PGROUNDDOWN va = va) by (apply PGROUNDDOWN_aligned; [lia|done]).
  assert (Hl : PGROUNDDOWN (u64 (va + PGSIZE - 1)) = va).
  { unfold u64. rewrite Z.mod_small by (unfold PGSIZE; lia).
    rewrite PGROUNDDOWN_spec by (unfold PGSIZE; lia). unfold PGSIZE in *. lia_mod. }
  unfold mappages. rewrite Ha, Hl.
  assert (Hf : ∃ n, Z.to_nat ((Z.max va MAXVA - va) / PGSIZE + 1) = S n).
  { exists (Z.to_nat ((Z.max va MAXVA - va) / PGSIZE)).
    rewrite Z2Nat.inj_add by (try apply Z.div_pos; unfold PGSIZE; lia). simpl. lia. }
  destruct Hf as [n ->]. cbn [mappages_loop]. munfold.
  destruct (walk pt va true s) as [[r|] s1| | |]; try done.
  unfold load_pte, store_pte. destruct (lookup_pte s1 r) as [v|] eqn:Hv; [|done].
  destruct (decide (Z.land v PTE_V ≠ 0)); [done|]. rewrite Hv. by rewrite decide_True.
Qed.

Lemma walkaddr_present (s : state) (pt va v : Z) :
  va < MAXVA → pte_at s pt va = Some v →
  walkaddr pt va s =
  Ok (if decide (Z.land v PTE_V = 0) then 0
      else if decide (Z.land v PTE_U = 0) then 0 else PTE2PA v) s.
Proof.
  intros Hva Hv. unfold walkaddr. rewrite decide_False by lia.
  rewrite (bind_Ok _ _ s s _ (walk_present s pt va v false Hva Hv)).
  rewrite (bind_Ok _ _ s s v) by by apply load_pte_Ok.
  by repeat destruct (decide _).
Qed.

Lemma lor_flag_nonzero (x n : Z) : 0 ≤ n → Z.land (Z.lor x (Z.shiftl 1 n)) (Z.shiftl 1 n) ≠ 0.
Proof.
  intros Hn. apply land_flag_testbit; [done|]. rewrite testbit_set_flag by done.
  rewrite bool_decide_eq_true_2 by done. apply orb_true_r.
Qed.

Lemma lor_below_pow2 (a b n : Z) : 0 ≤ n → 0 ≤ a < 2 ^ n → 0 ≤ b < 2 ^ n → 0 ≤ Z.lor a b < 2 ^ n.
Proof.
  intros Hn Ha Hb. split; [apply Z.lor_nonneg; lia|].
  destruct (decide (n = 0)) as [->|Hn0].
  { change (2 ^ 0) with 1 in *. assert (a = 0) as -> by lia. assert (b = 0) as -> by lia.
    done. }
  destruct (decide (Z.lor a b = 0)) as [->|Hne]; [lia|].
  assert (0 < Z.lor a b) by (pose proof (proj2 (Z.lor_nonneg a b) ltac:(lia)); lia).
  apply Z.log2_lt_pow2; [done|]. rewrite Z.log2_lor by lia.
  assert (Hlog : ∀ x, 0 ≤ x < 2 ^ n → Z.log2 x < n).
  { intros x Hx. destruct (decide (x = 0)) as [->|]; [simpl; lia|].
    apply Z.log2_lt_pow2; lia. }
  apply Z.max_lub_lt; by apply Hlog.
Qed.

(** X10: after [mappages] has mapped one page at a page-aligned [va] to the
    frame [pa] with user permission, [walkaddr] translates [va] to [pa]. *)
Theorem mappages_then_walkaddr (s s' : state) (pt va pa perm : Z) :
  0 ≤ va < MAXVA → va mod PGSIZE = 0 →
  0 ≤ pa < 2 ^ 56 → pa mod PGSIZE = 0 →
  0 ≤ perm < 1024 → Z.land perm PTE_U ≠ 0 →
  mappages pt va PGSIZE pa perm s = Ok 0 s' →
  walkaddr pt va s' = Ok pa s'.
Proof.
  intros Hva Hal Hpa Hpal Hperm HU Hmap.
  rewrite mappages_one in Hmap by done.
  destruct (walk pt va true s) as [[r|] s1| | |] eqn:Hw; try done.
  apply walk_inv_ptr in Hw as [-> _].
  destruct (lookup_pte s1 (va_ptr pt va)) as [v0|] eqn:Hv0; [|done].
  destruct (decide (Z.land v0 PTE_V ≠ 0)); [done|]. injection Hmap as <-.
  set (w := Z.lor (Z.lor (PA2PTE pa) perm) PTE_V).
  assert (Hw : pte_at (poke (va_ptr pt va) w s1) pt va = Some w).
  { unfold pte_at. rewrite lookup_pte_poke by by eexists. by rewrite decide_True. }
  rewrite (walkaddr_present _ pt va w (proj2 Hva) Hw).
  rewrite decide_False by apply (lor_flag_nonzero _ 0 ltac:(lia)).
  rewrite decide_False.
  - f_equal. unfold w. rewrite <- Z.lor_assoc. apply pte_encode_decode; [done|done|].
    apply (lor_below_pow2 perm PTE_V 10); [lia|done|done].
  - apply (land_flag_testbit w 4 ltac:(lia)). unfold w.
    rewrite !Z.lor_spec. apply (land_flag_testbit perm 4 ltac:(lia)) in HU.
    rewrite HU. by rewrite orb_true_r.
Qed.

Lemma mappages_then_walkaddr_witness :
  ∃ s', mappages 1000 8192 PGSIZE 2147487744 PERM_URWX (fresh_proc 2 1000 (frame_list 4))
        = Ok 0 s' ∧
        walkaddr 1000 8192 s' = Ok 2147487744 s'.
Proof.
  eexists. split; [vm_compute; reflexivity|].
  eapply (mappages_then_walkaddr (fresh_proc 2 1000 (frame_list 4)) _ 1000 8192 2147487744
            PERM_URWX).
  - split; [discriminate|reflexivity].
  - reflexivity.
  - split; [discriminate|reflexivity].
  - reflexivity.
  - split; [discriminate|reflexivity].
  - discriminate.
  - vm_compute; reflexivity.
Defined.





(** ** uvmclear, uvmcreate *)

(** X13: [uvmclear] clears the user bit of the PTE of [va] and nothing
    else: the other bits of that PTE and every other PTE are as before, and
    [walkaddr] then refuses the address (it returns 0). *)
Theorem uvmclear_revokes_user (s : state) (pt va v : Z) :
  va < MAXVA → pte_at s pt va = Some v →
  ∃ s', uvmclear pt va s = Ok tt s' ∧
        pte_at s' pt va = Some (clear_bits v PTE_U) ∧
        (∀ k, 0 ≤ k < 64 → k ≠ 4 → Z.testbit (clear_bits v PTE_U) k = Z.testbit v k) ∧
        (∀ r, r ≠ va_ptr pt va → lookup_pte s' r = lookup_pte s r) ∧
        walkaddr pt va s' = Ok 0 s'.
Proof.
  intros Hva Hv. exists (poke (va_ptr pt va) (clear_bits v PTE_U) s).
  assert (Hs : is_Some (lookup_pte s (va_ptr pt va))) by by eexists.
  assert (Hnew : pte_at (poke (va_ptr pt va) (clear_bits v PTE_U) s) pt va
                 = Some (clear_bits v PTE_U)).
  { unfold pte_at. rewrite lookup_pte_poke by done. by rewrite decide_True. }
  split; [|split; [done|split; [|split]]].
  - unfold uvmclear. rewrite (bind_Ok _ _ s s _ (walk_present s pt va v false Hva Hv)).
    rewrite (bind_Ok _ _ s s v) by by apply load_pte_Ok.
    by apply store_pte_Ok.
  - intros k Hk Hne. unfold PTE_U. rewrite (testbit_clear_bits v 4 k) by lia.
    rewrite bool_decide_eq_false_2 by done. apply andb_true_r.
  - intros r Hr. rewrite lookup_pte_poke by done. by rewrite decide_False.
  - rewrite (walkaddr_present _ pt va _ Hva Hnew).
    destruct (decide (Z.land (clear_bits v PTE_U) PTE_V = 0)); [done|].
    rewrite decide_True; [done|].
    destruct (decide (Z.land (clear_bits v PTE_U) PTE_U = 0)) as [|Hne]; [done|].
    apply (land_flag_testbit _ 4 ltac:(lia)) in Hne. unfold PTE_U in Hne.
    rewrite (testbit_clear_bits v 4 4) in Hne by lia.
    rewrite bool_decide_eq_true_2 in Hne by done. by rewrite andb_false_r in Hne.
Qed.

Lemma uvmclear_revokes_user_witness :
  walkaddr 1000 4096 (leaf_state [0; 536871967] []) =
    Ok 2147487744 (leaf_state [0; 536871967] []) ∧
  ∃ s', uvmclear 1000 4096 (leaf_state [0; 536871967] []) = Ok tt s' ∧
        pte_at s' 1000 4096 = Some 536871951 ∧ walkaddr 1000 4096 s' = Ok 0 s'.
Proof.
  split; [reflexivity|].
  assert (Hva : 4096 < MAXVA) by reflexivity.
  assert (Hv : pte_at (leaf_state [0; 536871967] []) 1000 4096 = Some 536871967)
    by reflexivity.
  destruct (uvmclear_revokes_user _ 1000 4096 536871967 Hva Hv) as (s' & H1 & H2 & _ & _ & H5).
  exists s'. split; [exact H1|]. split; [exact H2|exact H5].
Defined.

(** X14: [uvmclear] on an address whose level-0 page does not exist
    panics; it never allocates a page-table page. *)
Theorem uvmclear_unmapped_panics (s : state) (pt va : Z) :
  va < MAXVA → is_Some (ptmem s !! pt) → leaves_wf s → pte_at s pt va = None →
  uvmclear pt va s = Panic "uvmclear".
Proof.
  intros Hva Hroot Hwf Hnone. unfold uvmclear.
  rewrite (bind_Ok _ _ s s _ (walk_noalloc s pt va Hva Hroot Hwf)). by rewrite Hnone.
Qed.

Lemma fresh_proc_leaves_wf (p root : Z) (frames : list Z) : leaves_wf (fresh_proc p root frames).
Proof.
  intros pt i2 i1 lf. unfold get_l0, get_l1, fresh_proc. cbn [ptmem].
  destruct (decide (pt = root)) as [->|Hne].
  - rewrite lookup_singleton_eq. by rewrite lookup_empty.
  - by rewrite lookup_singleton_ne.
Qed.

Lemma uvmclear_unmapped_panics_witness :
  uvmclear 1000 8192 (fresh_proc 2 1000 []) = Panic "uvmclear".
Proof.
  apply uvmclear_unmapped_panics.
  - reflexivity.
  - by eexists.
  - apply fresh_proc_leaves_wf.
  - reflexivity.
Defined.

(** X15: [uvmcreate] returns 0 and changes nothing when no frame is free;
    otherwise it takes the first free frame as the root of a page table
    that maps nothing: [walk] without allocation finds no PTE and
    [walkaddr] returns 0 for every address. *)
Theorem uvmcreate_maps_nothing (s : state) :
  (kmem s = [] → uvmcreate s = Ok 0 s) ∧
  (∀ pa fs, kmem s = pa :: fs → pa ≠ 0 →
     ∃ s', uvmcreate s = Ok pa s' ∧ kmem s' = fs ∧
           ∀ va, walkaddr pa va s' = Ok 0 s' ∧
                 (va < MAXVA → walk pa va false s' = Ok None s')).
Proof.
  split.
  - intros H. unfold uvmcreate, kalloc. munfold. by rewrite H.
  - intros pa fs H Hne.
    exists (set_ptmem (<[pa := ∅]> (ptmem (set_kmem fs s))) (set_kmem fs s)).
    split; [|split; [done|]].
    + unfold uvmcreate, kalloc. munfold. rewrite H. by rewrite decide_False.
    + intros va.
      assert (Hw : va < MAXVA →
                   walk pa va false
                     (set_ptmem (<[pa := ∅]> (ptmem (set_kmem fs s))) (set_kmem fs s))
                   = Ok None (set_ptmem (<[pa := ∅]> (ptmem (set_kmem fs s))) (set_kmem fs s))).
      { intros Hva. unfold walk. rewrite decide_False by lia. unfold walk_level. munfold.
        cbn [ptmem set_ptmem]. rewrite lookup_insert_eq.
        unfold has_l1, get_l1. cbn [ptmem set_ptmem]. rewrite lookup_insert_eq.
        rewrite lookup_empty. rewrite bool_decide_eq_false_2 by (intros [? ?]; done).
        done. }
      split; [|done]. unfold walkaddr. destruct (decide (MAXVA ≤ va)); [done|].
      by rewrite (bind_Ok _ _ _ _ _ (Hw ltac:(lia))).
Qed.

Lemma uvmcreate_maps_nothing_witness :
  ∃ s', uvmcreate (fresh_proc 2 1000 (frame_list 2)) = Ok 2147487744 s' ∧
        walkaddr 2147487744 8192 s' = Ok 0 s'.
Proof.
  destruct (proj2 (uvmcreate_maps_nothing (fresh_proc 2 1000 (frame_list 2)))
              2147487744 [2147491840] eq_refl ltac:(discriminate)) as (s' & H1 & _ & H3).
  exists s'. split; [exact H1|]. exact (proj1 (H3 8192)).
Defined.

(** ** What victim selection leaves alone *)

Lemma nfua_loop_state (n : nat) (i min index r : Z) (s s' : state) :
  nfua_loop n i min index s = Ok r s' → s' = s.
Proof.
  revert i min index. induction n as [|n IH]; intros i min index H.
  - by injection H as _ <-.
  - cbn [nfua_loop] in H. bind_inv H d s1 Hd. apply load_data_inv in Hd as [-> _].
    destruct (inUse d && bool_decide (agingCounter d < min)); by apply IH in H.
Qed.

Lemma countOnes_loop_state (fuel : nat) (age count r : Z) (s s' : state) :
  countOnes_loop fuel age count s = Ok r s' → s' = s.
Proof.
  revert age count. induction fuel as [|fuel IH]; intros age count H; cbn [countOnes_loop] in H;
    destruct (decide (age ≠ 0)); try done; try by injection H as _ <-.
  by apply IH in H.
Qed.

Lemma lapa_loop_state (n : nat) (i minOnes minAge pageIndex r : Z) (s s' : state) :
  lapa_loop n i minOnes minAge pageIndex s = Ok r s' → s' = s.
Proof.
  revert i minOnes minAge pageIndex. induction n as [|n IH]; intros i mo ma pi H.
  - by injection H as _ <-.
  - cbn [lapa_loop] in H. bind_inv H d s1 Hd. apply load_data_inv in Hd as [-> _].
    destruct (inUse d); [|by apply IH in H].
    bind_inv H ones s1 Hc. apply countOnes_loop_state in Hc as ->.
    destruct (_ || _); by apply IH in H.
Qed.

Lemma clear_bits_idem (a m : Z) : clear_bits (clear_bits a m) m = clear_bits a m.
Proof. unfold clear_bits. by rewrite <- Z.land_assoc, Z.land_diag. Qed.

Lemma ptes_aged_refl (s : state) : ptes_aged s s.
Proof. intros r. destruct (lookup_pte s r); [by left|done]. Qed.

Lemma ptes_aged_trans (s1 s2 s3 : state) :
  ptes_aged s1 s2 → ptes_aged s2 s3 → ptes_aged s1 s3.
Proof.
  intros H12 H23 r. specialize (H12 r). specialize (H23 r).
  destruct (lookup_pte s1 r) as [a|], (lookup_pte s2 r) as [b|], (lookup_pte s3 r) as [c|];
    try done.
  destruct H12 as [-> | ->], H23 as [-> | ->]; [by left|by right|by right|].
  right. apply clear_bits_idem.
Qed.

Lemma ptes_aged_same_ptmem (s s' : state) : ptmem s' = ptmem s → ptes_aged s s'.
Proof.
  intros H r. unfold lookup_pte, lookup_leaf, get_l0, get_l1. rewrite H.
  destruct (ptmem s !! pp_root r) as [t2|]; [|done].
  destruct (t2 !! pp_i2 r) as [t1|]; [|done].
  destruct (t1 !! pp_i1 r) as [lf|]; [|done].
  destruct (cell lf (pp_i0 r)); [by left|done].
Qed.

Lemma ptes_aged_poke (s : state) (r : pteptr) (v : Z) :
  lookup_pte s r = Some v → ptes_aged s (poke r (clear_bits v PTE_A) s).
Proof.
  intros Hv r'. rewrite lookup_pte_poke by by eexists.
  destruct (decide (r' = r)) as [->|].
  - rewrite Hv. by right.
  - destruct (lookup_pte s r'); [by left|done].
Qed.

Lemma scfifo_round_frame (s s' : state) (r : option Z) :
  scfifo_round s = Ok r s' → proc_meta s' = proc_meta s ∧ ptes_aged s s'.
Proof.
  unfold scfifo_round. intros H.
  bind_inv H h s1 Hh. apply gets_inv in Hh as [-> ->].
  bind_inv H page s1 Hp. apply load_pages_inv in Hp as [-> _].
  bind_inv H va s1 Hva. apply int_of_inv in Hva as (-> & -> & _).
  bind_inv H pt s1 Hpt. apply gets_inv in Hpt as [-> ->].
  bind_inv H pte s1 Hw. apply walk_noalloc_inv in Hw as (-> & _ & _).
  bind_inv H v s1 Hl. apply load_pte_inv in Hl as (-> & r0 & -> & Hv).
  destruct (decide _).
  - bind_inv H u s1 Hs. destruct u. apply store_pte_inv in Hs as (r1 & Heq & _ & ->).
    injection Heq as <-.
    bind_inv H u2 s2 Ho. rewrite out_Ok in Ho. injection Ho as _ <-.
    bind_inv H u3 s3 Hi. apply in_inv in Hi as ->. injection H as _ <-.
    split; [done|]. eapply ptes_aged_trans; [by apply ptes_aged_poke|].
    by apply ptes_aged_same_ptmem.
  - bind_inv H u2 s2 Ho. rewrite out_Ok in Ho. injection Ho as _ <-. injection H as _ <-.
    split; [done|]. by apply ptes_aged_same_ptmem.
Qed.

Lemma scfifo_loop_frame (fuel : nat) (i r : Z) (s s' : state) :
  scfifo_loop fuel i s = Ok r s' → proc_meta s' = proc_meta s ∧ ptes_aged s s'.
Proof.
  revert i s. induction fuel as [|fuel IH]; intros i s H; cbn [scfifo_loop] in H;
    bind_inv H n s1 Hn; apply gets_inv in Hn as [-> ->];
    destruct (decide (i < numOfPages s)); try done.
  - bind_inv H h s1 Hh. apply gets_inv in Hh as [-> ->].
    bind_inv H page s1 Hp. apply load_pages_inv in Hp as [-> _].
    bind_inv H u2 s2 Ho. rewrite out_Ok in Ho. injection Ho as _ <-. injection H as _ <-.
    split; [done|]. by apply ptes_aged_same_ptmem.
  - bind_inv H o s1 Hr. apply scfifo_round_frame in Hr as [Hm Ha].
    destruct o as [page|].
    + injection H as _ <-. done.
    + apply IH in H as [Hm' Ha']. split; [congruence|]. by eapply ptes_aged_trans.
  - bind_inv H h s1 Hh. apply gets_inv in Hh as [-> ->].
    bind_inv H page s1 Hp. apply load_pages_inv in Hp as [-> _].
    bind_inv H u2 s2 Ho. rewrite out_Ok in Ho. injection Ho as _ <-. injection H as _ <-.
    split; [done|]. by apply ptes_aged_same_ptmem.
Qed.

(** Every policy leaves the [PageMeta] table, the counters and the free
    frames alone when it picks a victim; only SCFIFO writes, and then only
    accessed bits and its queue. *)
Lemma getIndexToRemove_frame (sel : selection) (s s' : state) (v : Z) :
  getIndexToRemove sel s = Ok v s' →
  proc_meta s' = proc_meta s ∧ ptes_aged s s' ∧ (sel ≠ SCFIFO → s' = s).
Proof.
  destruct sel; cbn [getIndexToRemove]; intros H.
  - injection H as _ <-. split; [done|]. split; [apply ptes_aged_refl|done].
  - apply nfua_loop_state in H as ->. split; [done|]. split; [apply ptes_aged_refl|done].
  - apply lapa_loop_state in H as ->. split; [done|]. split; [apply ptes_aged_refl|done].
  - unfold scfifo in H. bind_inv H n s1 Hn. apply gets_inv in Hn as [-> ->].
    apply scfifo_loop_frame in H as [? ?]. done.
Qed.

(** ** page_to_file *)

Lemma lookup_pte_ext (s s' : state) (r : pteptr) :
  ptmem s' = ptmem s → lookup_pte s' r = lookup_pte s r.
Proof. intros H. unfold lookup_pte, lookup_leaf, get_l0, get_l1. by rewrite H. Qed.

Lemma int_page_index (v : Z) :
  INT_MIN ≤ v * PGSIZE ≤ INT_MAX → u64 (v * PGSIZE) < MAXVA → 0 ≤ v < 2 ^ 19.
Proof.
  unfold INT_MIN, INT_MAX, u64, PGSIZE. change MAXVA with 274877906944.
  change (2 ^ 19) with 524288. change (2 ^ 31) with 2147483648.
  change (2 ^ 64) with 18446744073709551616. intros H1 H2. lia_mod.
Qed.

Lemma pte_aged_bits (a b k : Z) : pte_aged a b → 0 ≤ k < 64 → k ≠ 6 → Z.testbit b k = Z.testbit a k.
Proof.
  intros [->| ->] Hk Hne; [done|]. unfold PTE_A. rewrite testbit_clear_bits by lia.
  rewrite bool_decide_eq_false_2 by done. apply andb_true_r.
Qed.

(** X16: when [page_to_file] returns, the victim [v] chosen by the policy
    has its PTE with the valid bit clear and the paged-out bit set; the
    other bits are those before the call, but for the accessed bit, which
    SCFIFO may have cleared while choosing.  In the [PageMeta] table only
    entry [v] changes: it is not in use, its offset is the given one as an
    [int], its aging counter is kept.  [pagesInMemory] is one less. *)
Theorem page_to_file_effect (sel : selection) (off v : Z) (s s1 s' : state) :
  getIndexToRemove sel s = Ok v s1 → page_to_file sel off s = Ok tt s' →
  ∃ pte0 pte' d,
    page_pte s v = Some pte0 ∧ page_pte s' v = Some pte' ∧
    Z.testbit pte' 0 = false ∧ Z.testbit pte' 9 = true ∧
    (∀ k, 0 ≤ k < 64 → k ≠ 0 → k ≠ 9 → k ≠ 6 → Z.testbit pte' k = Z.testbit pte0 k) ∧
    (sel ≠ SCFIFO → Z.testbit pte' 6 = Z.testbit pte0 6) ∧
    cell (data s) v = Some d ∧
    data s' = <[Z.to_nat v := mkPageData false (s32 off) (agingCounter d)]> (data s) ∧
    pagesInMemory s' = pagesInMemory s - 1.
Proof.
  intros Hsel H. destruct (getIndexToRemove_frame sel s s1 v Hsel) as (Hmeta & Haged & Hsame).
  unfold page_to_file in H. rewrite (bind_Ok _ _ s s1 v Hsel) in H.
  bind_inv H va s2 Hva. apply int_of_inv in Hva as (-> & -> & Hint).
  bind_inv H pt s2 Hpt. apply gets_inv in Hpt as [-> ->].
  bind_inv H pte s2 Hw. apply walk_noalloc_inv in Hw as (-> & Hlt & Hpte).
  bind_inv H pv s2 Hl. apply load_pte_inv in Hl as (-> & r & -> & Hpv).
  destruct Hpte as [Hpte|Hpte]; [done|]. injection Hpte as ->.
  pose proof (int_page_index v Hint Hlt) as Hv.
  destruct (page_va_range v Hv) as (_ & Hu & _). rewrite Hu in *.
  bind_inv H w s2 Hwr. unfold writeToSwapFile in Hwr.
  bind_inv Hwr b s3 Hb. apply gets_inv in Hb as [-> ->]. injection Hwr as <- <-.
  destruct (decide _); [done|].
  bind_inv H u s2 Hk. apply modify_inv in Hk as ->.
  bind_inv H u2 s2 Hs. destruct u2. apply store_pte_inv in Hs as (r & Hr & Hsome & ->).
  injection Hr as <-.
  bind_inv H u3 s2 Hd1. apply store_data_inv in Hd1 as (d1 & Hc1 & ->).
  bind_inv H u4 s2 Hd2. apply store_data_inv in Hd2 as (d2 & Hc2 & ->).
  apply modify_inv in H as ->.
  cbn [data set_data set_kmem poke set_ptmem] in Hc1, Hc2.
  assert (Hpt : pagetable s1 = pagetable s) by (by injection Hmeta).
  assert (Hdata : data s1 = data s) by (by injection Hmeta).
  assert (Hpim : pagesInMemory s1 = pagesInMemory s) by (by injection Hmeta).
  specialize (Haged (va_ptr (pagetable s1) (v * PGSIZE))). rewrite Hpv in Haged.
  destruct (lookup_pte s (va_ptr (pagetable s1) (v * PGSIZE))) as [pte0|] eqn:Hp0; [|done].
  apply cell_lookup in Hc1 as [Hrange Hl1].
  assert (Hd2 : d2 = with_offset (s32 off) d1).
  { apply cell_lookup in Hc2 as [_ Hl2]. rewrite list_lookup_insert_eq in Hl2 by lia.
    by injection Hl2. }
  exists pte0, (Z.lor (clear_bits pv PTE_V) PTE_PG), d1.
  assert (Hb0 : ∀ k, 0 ≤ k < 64 →
            Z.testbit (Z.lor (clear_bits pv PTE_V) PTE_PG) k =
            Z.testbit pv k && negb (bool_decide (k = 0)) || bool_decide (k = 9)).
  { intros k Hk. unfold PTE_PG, PTE_V. rewrite testbit_set_flag by lia.
    by rewrite testbit_clear_bits by lia. }
  split.
  { unfold page_pte. rewrite decide_True by done. unfold pte_at. by rewrite <- Hpt. }
  split.
  { unfold page_pte. rewrite decide_True by done. unfold pte_at.
    cbn [pagetable set_pagesInMemory set_data poke set_ptmem set_kmem].
    erewrite lookup_pte_ext; [|reflexivity].
    change (lookup_pte (poke (va_ptr (pagetable s1) (v * PGSIZE))
                          (Z.lor (clear_bits pv PTE_V) PTE_PG) s1)
                       (va_ptr (pagetable s1) (v * PGSIZE)) = Some (Z.lor (clear_bits pv PTE_V) PTE_PG)).
    rewrite lookup_pte_poke by by eexists. by rewrite decide_True. }
  split; [rewrite Hb0 by lia; rewrite bool_decide_eq_true_2 by done;
          rewrite bool_decide_eq_false_2 by done; by rewrite andb_false_r|].
  split; [rewrite Hb0 by lia; rewrite (bool_decide_eq_true_2 (9 = 9)) by done;
          apply orb_true_r|].
  split.
  { intros k Hk H0 H9 H6. rewrite Hb0 by done. rewrite !bool_decide_eq_false_2 by done.
    rewrite orb_false_r, andb_true_r. by apply pte_aged_bits. }
  split.
  { intros Hne. rewrite Hb0 by lia. rewrite !bool_decide_eq_false_2 by done.
    rewrite orb_false_r, andb_true_r. specialize (Hsame Hne). subst s1.
    rewrite Hp0 in Hpv. by injection Hpv as ->. }
  split; [unfold cell; rewrite decide_True by lia; by rewrite <- Hdata|].
  split; [|cbn; lia].
  cbn [data set_pagesInMemory set_data poke set_ptmem set_kmem].
  rewrite list_insert_insert_eq. rewrite Hd2, Hdata. done.
Qed.

Lemma page_to_file_effect_witness :
  ∃ s', page_to_file SCFIFO 8192
          (five_pages [used_pte 7; user_pte 8; user_pte 9; user_pte 10; user_pte 11]) = Ok tt s' ∧
        page_pte s' 1 = Some (Z.lor (Z.shiftl 8 10) 542) ∧
        data s' !! 1%nat = Some (mkPageData false 8192 0) ∧ pagesInMemory s' = 4.
Proof.
  set (s := five_pages [used_pte 7; user_pte 8; user_pte 9; user_pte 10; user_pte 11]).
  destruct (getIndexToRemove SCFIFO s) as [v s1| | |] eqn:Hsel; try discriminate.
  assert (Hv : v = 1) by (vm_compute in Hsel; by injection Hsel as <- _). subst v.
  destruct (page_to_file SCFIFO 8192 s) as [[] s'| | |] eqn:Hp; try discriminate.
  destruct (page_to_file_effect SCFIFO 8192 1 s s1 s' Hsel Hp)
    as (pte0 & pte' & d & H0 & H1 & _ & _ & _ & _ & Hd & Hdata & Hpim).
  exists s'. split; [reflexivity|].
  vm_compute in Hp. injection Hp as <-. split; [reflexivity|]. split; reflexivity.
Defined.

(** ** SCFIFO *)











